(** * Async Backbone.Validation 0.8.0: the validation pipeline

    A shallow embedding of [src/async.backbone.validation.js] and the
    properties of its chain runners ([validateAttr], [validateModel]) and of
    the methods mixed in on a model ([preValidate], [isValid], [validate]).

    Conventions of the embedding.

    - JavaScript values are the inductive type [jsval].  Numbers are the
      integers ([Z]) and [NaN]; strings are sequences of code units below 256.
    - An object is the list of its own enumerable properties, in the order in
      which it enumerates them; writing a property updates it in place or
      appends it (JavaScript moves a name that is an array index ahead of the
      other names; the embedding keeps it where it was written).  Reading a
      property that is not an own one reaches the members of
      [Object.prototype] ([inherited]); what strings, numbers, arrays and
      functions inherit from their own prototypes is not modelled, apart from
      [length] and the indices.  A model is given with what it has or
      inherits from its class ([attributes], [validation], [labels], the
      methods that a rule names) as its fields.  A function is opaque: it has
      a name, and what it does when it is called is the host's.
    - Objects have no identity: [===] is decided on primitive values, and two
      objects are never taken to be the same one.
    - Underscore is the one of the library's time (1.4, 1.5): [_.each] walks a
      value that has a numeric [length] by index, [_.keys] is [Object.keys].
    - A jQuery Deferred is followed by state passing ([handle]): it is pending
      until the first [resolve] or [reject], later settlements are ignored,
      and the handlers bound with [then] run when it settles.  The code binds
      its handlers before it starts the work, so a chain is the sequential
      composition of its steps, and a step whose Deferred never settles ends
      the run in the state [Pending].
    - A function returns a [completion]: a value, or a raised fault.  The
      engine's computations are in the monad [Run], which adds the log of the
      observable events (validator calls and their settlements, callbacks,
      notifications).
    - What the host supplies (user functions and the functions of the
      engine, regular expressions, coercions of non-numbers) is a record
      [Host]; every general result holds for every host.
    - A function called as a validator settles its result handle as passed or
      as failed (at once or in a later turn), raises before settling it, or
      never settles it: type [behaviour].
    - The callbacks [valid] and [invalid] and [model.trigger] are logged, not
      run. *)

From Stdlib Require Import List String Ascii ZArith Bool Lia DecimalString.
Import ListNotations.
Local Open Scope string_scope.
Local Open Scope Z_scope.
Set Warnings "-register-all".

(** ** Values *)

Inductive obj_class : Type :=
| Plain | DateObj | RegExpObj | ModelObj | CollectionObj.

Inductive jsval : Type :=
| VUndef
| VNull
| VBool (b : bool)
| VNum (n : Z)
| VNaN
| VStr (s : string)
| VFun (name : string)
| VArr (items : list jsval)
| VObj (cls : obj_class) (fields : list (string * jsval)).

Definition props : Type := list (string * jsval).

(** A synchronous completion: a value, or a raised fault (the code never
    inspects what was raised). *)
Inductive completion (A : Type) : Type :=
| Normal (a : A)
| Throw.
Arguments Normal {A} a.
Arguments Throw {A}.

Definition cbind {A B} (c : completion A) (k : A -> completion B) : completion B :=
  match c with
  | Normal a => k a
  | Throw => Throw
  end.

Notation "x <-- c ;; k" := (cbind c (fun x => k))
  (at level 61, c at next level, right associativity).

(** How a validator function leaves the result handle it was given. *)
Inductive behaviour : Type :=
| Resolves
| Rejects (message : jsval)
| Faults
| Stalls.

(** ** Properties *)

Fixpoint lookup (k : string) (ps : props) : option jsval :=
  match ps with
  | [] => None
  | (k', v) :: rest => if String.eqb k' k then Some v else lookup k rest
  end.

(** [o[k] = v] on an object held as its property list. *)
Fixpoint set_prop (k : string) (v : jsval) (ps : props) : props :=
  match ps with
  | [] => [(k, v)]
  | (k', v') :: rest =>
      if String.eqb k' k then (k', v) :: rest else (k', v') :: set_prop k v rest
  end.

Definition hasOwnProperty (ps : props) (k : string) : bool :=
  match lookup k ps with Some _ => true | None => false end.

Definition key_of_index (i : nat) : string :=
  NilZero.string_of_uint (Nat.to_uint i).

Definition num_string (n : Z) : string :=
  NilZero.string_of_int (Z.to_int n).

Fixpoint arr_get_from (i : nat) (k : string) (xs : list jsval) : jsval :=
  match xs with
  | [] => VUndef
  | x :: rest => if String.eqb (key_of_index i) k then x else arr_get_from (S i) k rest
  end.

Fixpoint arr_props_from (i : nat) (xs : list jsval) : props :=
  match xs with
  | [] => []
  | x :: rest => (key_of_index i, x) :: arr_props_from (S i) rest
  end.

Definition str_length (s : string) : Z := Z.of_nat (String.length s).

Fixpoint str_get_from (i : nat) (k : string) (s : string) : jsval :=
  match s with
  | EmptyString => VUndef
  | String c rest =>
      if String.eqb (key_of_index i) k then VStr (String c EmptyString)
      else str_get_from (S i) k rest
  end.

Fixpoint str_props_from (i : nat) (s : string) : props :=
  match s with
  | EmptyString => []
  | String c rest => (key_of_index i, VStr (String c EmptyString)) :: str_props_from (S i) rest
  end.

(** The names every value that is not [null] or [undefined] inherits from
    [Object.prototype]. *)
Definition Object_prototype : list string :=
  ["constructor"; "toString"; "toLocaleString"; "valueOf"; "hasOwnProperty";
   "isPrototypeOf"; "propertyIsEnumerable"; "__defineGetter__"; "__defineSetter__";
   "__lookupGetter__"; "__lookupSetter__"].

(** The member of [Object.prototype] found under a name: a function of the
    engine, or the prototype itself under [__proto__] (an object without
    enumerable properties). *)
Definition inherited (k : string) : option jsval :=
  if existsb (String.eqb k) Object_prototype then Some (VFun ("Object.prototype." ++ k))
  else if String.eqb k "__proto__" then Some (VObj Plain [])
  else None.

Definition or_inherited (own : option jsval) (k : string) : jsval :=
  match own with
  | Some v => v
  | None => match inherited k with Some v => v | None => VUndef end
  end.

(** [o[k]]: faults on [null] and [undefined]. *)
Definition js_get (o : jsval) (k : string) : completion jsval :=
  match o with
  | VUndef | VNull => Throw
  | VObj _ ps => Normal (or_inherited (lookup k ps) k)
  | VArr xs =>
      Normal (if String.eqb k "length" then VNum (Z.of_nat (List.length xs))
              else match inherited k with
                   | Some v => v
                   | None => arr_get_from 0 k xs
                   end)
  | VStr s =>
      Normal (if String.eqb k "length" then VNum (str_length s)
              else match inherited k with
                   | Some v => v
                   | None => str_get_from 0 k s
                   end)
  | _ => Normal (or_inherited None k)
  end.

(** [o[k]] where [o] is known to be an object. *)
Definition read (o : jsval) (k : string) : jsval :=
  match js_get o k with
  | Normal v => v
  | Throw => VUndef
  end.

(** [o[k] = v] on a value. *)
Definition js_set (o : jsval) (k : string) (v : jsval) : jsval :=
  match o with
  | VObj c ps => VObj c (set_prop k v ps)
  | _ => o
  end.

(** The own enumerable properties of a value: what [for in] and
    [Object.keys] go through. *)
Definition own_props (v : jsval) : props :=
  match v with
  | VObj _ ps => ps
  | VArr xs => arr_props_from 0 xs
  | VStr s => str_props_from 0 s
  | _ => []
  end.

(** [Object.keys] of a value that is not [null] or [undefined]. *)
Definition keys (v : jsval) : list string := map fst (own_props v).

(** [_.keys]: [Object.keys] raises on [null] and [undefined]. *)
Definition js_keys (v : jsval) : completion (list string) :=
  match v with
  | VUndef | VNull => Throw
  | _ => Normal (keys v)
  end.

(** The length [_.each] goes by when it walks an object by index:
    [obj.length === +obj.length]. *)
Definition numeric_length (ps : props) : option Z :=
  match lookup "length" ps with
  | Some (VNum n) => Some n
  | _ => None
  end.

(** The object is walked by index, not by key. *)
Definition array_like (v : jsval) : bool :=
  match v with
  | VObj _ ps => match numeric_length ps with Some _ => true | None => false end
  | _ => false
  end.

(** The values [_.each] hands to its callback. *)
Definition each_values (obj : jsval) : list jsval :=
  match obj with
  | VObj _ ps =>
      match numeric_length ps with
      | Some n =>
          map (fun i => match lookup (key_of_index i) ps with Some v => v | None => VUndef end)
            (seq 0 (Z.to_nat n))
      | None => map snd ps
      end
  | _ => map snd (own_props obj)
  end.

(** [_.without(list, k)] *)
Definition without (l : list string) (k : string) : list string :=
  filter (fun x => negb (String.eqb x k)) l.

(** [_.extend(target, sources...)] started from [{}]. *)
Definition write (acc : props) (kv : string * jsval) : props :=
  set_prop (fst kv) (snd kv) acc.

Definition extend_props (into : props) (src : jsval) : props :=
  fold_left write (own_props src) into.

Definition extend (sources : list jsval) : jsval :=
  VObj Plain (fold_left extend_props sources []).

(** [_.clone]: an array is copied as an array, any other object into a
    plain object. *)
Definition clone (v : jsval) : jsval :=
  match v with
  | VObj _ _ | VFun _ => extend [v]
  | _ => v
  end.

(** [_.pairs] *)
Definition pairs_of (ps : props) : list (string * jsval) := ps.

(** [_.intersection(a, b)] *)
Definition intersection (a b : list string) : list string :=
  nodup string_dec (filter (fun x => existsb (String.eqb x) b) a).

(** ** Coercions and tests *)

Definition truthy (v : jsval) : bool :=
  match v with
  | VUndef | VNull => false
  | VBool b => b
  | VNum n => negb (n =? 0)
  | VNaN => false
  | VStr s => negb (String.eqb s "")
  | _ => true
  end.

(** [a === b] on primitive values; [NaN] is equal to nothing. *)
Definition strict_eq (a b : jsval) : bool :=
  match a, b with
  | VUndef, VUndef => true
  | VNull, VNull => true
  | VBool x, VBool y => Bool.eqb x y
  | VNum x, VNum y => x =? y
  | VStr x, VStr y => String.eqb x y
  | VFun x, VFun y => String.eqb x y
  | _, _ => false
  end.

Definition isString (v : jsval) : bool := match v with VStr _ => true | _ => false end.
Definition isFunction (v : jsval) : bool := match v with VFun _ => true | _ => false end.
Definition isNull (v : jsval) : bool := match v with VNull => true | _ => false end.
Definition isUndefined (v : jsval) : bool := match v with VUndef => true | _ => false end.
Definition isBoolean (v : jsval) : bool := match v with VBool _ => true | _ => false end.
Definition isNumberValue (v : jsval) : bool :=
  match v with VNum _ | VNaN => true | _ => false end.

(** A value that is not an object or a function. *)
Definition primitive (v : jsval) : bool :=
  match v with
  | VFun _ | VArr _ | VObj _ _ => false
  | _ => true
  end.

(** [if (_.isString(fn)) fn = model[fn]] in the function validator. *)
Definition rule_function (fn model : jsval) : completion jsval :=
  match fn with
  | VStr name => js_get model name
  | _ => Normal fn
  end.

(** ** The host *)

Record Host : Type := {
  (** a function that is handed a result handle: a user function run as a
      validator on [model; value; attr; computed], or a member of
      [Object.prototype] found where a validator is looked up *)
  call_validator : string -> list jsval -> behaviour;
  (** a user function called for its value, with [this] and its arguments *)
  call_function : string -> jsval -> list jsval -> completion jsval;
  (** [subject.match(pattern)] finds a match *)
  regex_match : jsval -> string -> bool;
  (** [a < b] when one side is not a number (the conversion of an operand to
      a number is taken not to raise) *)
  coerced_lt : jsval -> jsval -> bool;
  (** [String(x)] for a function, an object that is not plain, or a number
      beyond the integers that are printed digit by digit *)
  object_string : jsval -> string
}.

(** ** Strings *)

Definition code (c : ascii) : nat := nat_of_ascii c.

Definition is_digit (c : ascii) : bool := (48 <=? code c)%nat && (code c <=? 57)%nat.
Definition is_upper (c : ascii) : bool := (65 <=? code c)%nat && (code c <=? 90)%nat.
Definition is_lower (c : ascii) : bool := (97 <=? code c)%nat && (code c <=? 122)%nat.
(** the class [\w] *)
Definition is_word (c : ascii) : bool :=
  is_digit c || is_upper c || is_lower c || (code c =? 95)%nat.
(** white space and line terminators *)
Definition is_space (c : ascii) : bool :=
  ((9 <=? code c)%nat && (code c <=? 13)%nat) || (code c =? 32)%nat || (code c =? 160)%nat.

Definition toUpperCase (c : ascii) : ascii :=
  if is_lower c then ascii_of_nat (code c - 32) else c.
Definition toLowerCase (c : ascii) : ascii :=
  if is_upper c then ascii_of_nat (code c + 32) else c.

Fixpoint trim_left (s : string) : string :=
  match s with
  | EmptyString => EmptyString
  | String c rest => if is_space c then trim_left rest else s
  end.

Fixpoint all_space (s : string) : bool :=
  match s with
  | EmptyString => true
  | String c rest => is_space c && all_space rest
  end.

Fixpoint trim_right (s : string) : string :=
  match s with
  | EmptyString => EmptyString
  | String c rest => if all_space s then EmptyString else String c (trim_right rest)
  end.

(** [String.prototype.trim] *)
Definition trim_string (s : string) : string := trim_right (trim_left s).

(** ** Validator descriptors, events and handles *)

(** What [defaultValidators[name]] can be called: the built in validators,
    which are the keys of the table, and the functions it inherits. *)
Inductive kind : Type :=
| Kfn | Krequired | Kacceptance | Kmin | Kmax | Krange | Klength
| KminLength | KmaxLength | KrangeLength | KoneOf | KequalTo | Kpattern
| Knative (g : string)
    (** a function of [Object.prototype] that the table inherits *).

(** One entry of the list built by [getValidators]: [{fn, val, msg}];
    [fn] is [None] when [defaultValidators] has no such key. *)
Record validator : Type := {
  fn : option kind;
  val : jsval;
  msg : jsval
}.

(** What a run does that can be observed from outside. *)
Inductive event : Type :=
| Invoke (attr : jsval) (v : validator) (value computed : jsval)
    (** [validator.fn.call(ctx, result, value, attr, validator.val, model, computed)] *)
| Settle (attr : jsval) (v : validator) (passed : bool)
    (** the result handle of that call was resolved or rejected *)
| Visit (attr : string) (value : jsval)
    (** [validateAttr(result, model, attr, value, computed)] in [invokeModel] *)
| CallValid (view attr selector : jsval)
| CallInvalid (view attr error selector : jsval)
| Trigger (name : string) (args : list jsval).

(** The state of a Deferred. *)
Inductive outcome (A : Type) : Type :=
| Pending
| Resolved (a : A)
| Rejected (e : jsval).
Arguments Pending {A}.
Arguments Resolved {A} a.
Arguments Rejected {A} e.

(** What is passed where the code expects a Deferred: a Deferred, or some
    other value. *)
Inductive handle : Type :=
| Deferred (st : outcome unit)
| Other (v : jsval).

(** A computation that logs events and may raise. *)
Definition Run (A : Type) : Type := (list event * completion A)%type.

Definition ret {A} (a : A) : Run A := ([], Normal a).
Definition raise {A} : Run A := ([], Throw).
Definition emit (e : event) : Run unit := ([e], Normal tt).
Definition lift {A} (c : completion A) : Run A := ([], c).

Definition bind {A B} (m : Run A) (k : A -> Run B) : Run B :=
  match m with
  | (l, Normal a) => let (l', c) := k a in ((l ++ l')%list, c)
  | (l, Throw) => (l, Throw)
  end.

Notation "x <- m ;; k" := (bind m (fun x => k))
  (at level 61, m at next level, right associativity).
Notation "m ;; k" := (bind m (fun _ => k))
  (at level 61, right associativity).

Definition trace {A} (m : Run A) : list event := fst m.
Definition result_of {A} (m : Run A) : completion A := snd m.

(** The value carried by [masterDeferred.resolve({invalidAttrs, isValid})]. *)
Record verdict : Type := {
  invalidAttrs : props;
  isValid : bool
}.

Section Engine.

Variable host : Host.
(** The current value of the global [defaultOptions]. *)
Variable defaultOptions : jsval.

(** [String(v)] *)
Fixpoint to_string (v : jsval) : string :=
  match v with
  | VUndef => "undefined"
  | VNull => "null"
  | VBool true => "true"
  | VBool false => "false"
  | VNum n => if Z.abs n <=? 9007199254740992 then num_string n else object_string host v
  | VNaN => "NaN"
  | VStr s => s
  | VFun _ => object_string host v
  | VArr xs =>
      (fix join (xs : list jsval) : string :=
         match xs with
         | [] => ""
         | x :: rest =>
             let here := match x with VUndef | VNull => "" | _ => to_string x end in
             match rest with
             | [] => here
             | _ => here ++ "," ++ join rest
             end
         end) xs
  | VObj Plain _ => "[object Object]"
  | VObj _ _ => object_string host v
  end.

(** [values.join(sep)]: only arrays have the method. *)
Fixpoint join_strings (sep : string) (xs : list jsval) : string :=
  match xs with
  | [] => ""
  | x :: rest =>
      let here := match x with VUndef | VNull => "" | _ => to_string x end in
      match rest with
      | [] => here
      | _ => here ++ sep ++ join_strings sep rest
      end
  end.

Definition join (v : jsval) (sep : string) : completion string :=
  match v with
  | VArr xs => Normal (join_strings sep xs)
  | _ => Throw
  end.

(** [a < b] and [a > b] *)
Definition js_lt (a b : jsval) : bool :=
  match a, b with
  | VNaN, _ | _, VNaN => false
  | VNum x, VNum y => x <? y
  | _, _ => coerced_lt host a b
  end.
Definition js_gt (a b : jsval) : bool := js_lt b a.

(** ** Helper functions *)

(** [formatFunctions.format]: replaces [{n}] by the n-th argument. *)
Definition format_arg (args : list jsval) (number : string) : string :=
  match arr_get_from 0 number args with
  | VUndef => "{" ++ number ++ "}"
  | v => to_string v
  end.

Fixpoint format_scan (args : list jsval) (text : string) (open : option string) : string :=
  match text with
  | EmptyString =>
      match open with
      | None => ""
      | Some digits => "{" ++ digits
      end
  | String c rest =>
      let outside :=
        if Ascii.eqb c "{"%char then format_scan args rest (Some "")
        else String c (format_scan args rest None) in
      match open with
      | None => outside
      | Some digits =>
          if is_digit c then format_scan args rest (Some (digits ++ String c ""))
          else if Ascii.eqb c "}"%char && negb (String.eqb digits "")
               then format_arg args digits ++ format_scan args rest None
               else "{" ++ digits ++ outside
      end
  end.

Definition format (text : string) (args : list jsval) : string :=
  format_scan args text None.

(** ** Error messages *)

Definition defaultMessages (kind : string) : string :=
  if String.eqb kind "required" then "{0} is required"
  else if String.eqb kind "acceptance" then "{0} must be accepted"
  else if String.eqb kind "min" then "{0} must be greater than or equal to {1}"
  else if String.eqb kind "max" then "{0} must be less than or equal to {1}"
  else if String.eqb kind "range" then "{0} must be between {1} and {2}"
  else if String.eqb kind "length" then "{0} must be {1} characters"
  else if String.eqb kind "minLength" then "{0} must be at least {1} characters"
  else if String.eqb kind "maxLength" then "{0} must be at most {1} characters"
  else if String.eqb kind "rangeLength" then "{0} must be between {1} and {2} characters"
  else if String.eqb kind "oneOf" then "{0} must be one of: {1}"
  else if String.eqb kind "equalTo" then "{0} must be the same as {1}"
  else if String.eqb kind "pattern" then "{0} must be a valid {1}"
  else "undefined".

(** ** Patterns *)

(** The built-in regular expressions are named constants; what they match is
    the host's [regex_match]. *)
Definition builtin_pattern (name : string) : jsval :=
  VObj RegExpObj [("builtin", VStr name)].

Definition defaultPatterns (name : string) : jsval :=
  if String.eqb name "digits" || String.eqb name "number"
     || String.eqb name "email" || String.eqb name "url"
  then builtin_pattern name else or_inherited None name.

(** ** Label formatters *)

(** [/(?:^\w|[A-Z]|\b\w)/g] replaced by the upper-cased match at index 0 and
    by a space and the lower-cased match elsewhere. *)
Fixpoint sentence_scan (first prev_word : bool) (s : string) : string :=
  match s with
  | EmptyString => EmptyString
  | String c rest =>
      let hit := is_upper c || (is_word c && (first || negb prev_word)) in
      (if hit
       then if first then String (toUpperCase c) "" else String " " (String (toLowerCase c) "")
       else String c "")
      ++ sentence_scan false (is_word c) rest
  end.

(** [s.replace('_', ' ')]: the first occurrence only. *)
Fixpoint replace_underscore (s : string) : string :=
  match s with
  | EmptyString => EmptyString
  | String c rest =>
      if Ascii.eqb c "_"%char then String " " rest else String c (replace_underscore rest)
  end.

Definition sentenceCase (attrName : jsval) : completion jsval :=
  match attrName with
  | VStr s => Normal (VStr (replace_underscore (sentence_scan true false s)))
  | _ => Throw
  end.

Definition label (attrName model : jsval) : completion jsval :=
  cbind (js_get model "labels") (fun labels =>
  if truthy labels then
    cbind (js_get labels (to_string attrName)) (fun l =>
    if truthy l then Normal l else sentenceCase attrName)
  else sentenceCase attrName).

(** [defaultLabelFormatters[name](attrName, model)]; the table itself is
    [this] for a member of [Object.prototype] found under the name. *)
Definition defaultLabelFormatters (name : string) (attrName model : jsval)
  : completion jsval :=
  if String.eqb name "none" then Normal attrName
  else if String.eqb name "sentenceCase" then sentenceCase attrName
  else if String.eqb name "label" then label attrName model
  else match inherited name with
       | Some (VFun g) =>
           call_function host g
             (VObj Plain [("none", VFun "labelFormatters.none");
                          ("sentenceCase", VFun "labelFormatters.sentenceCase");
                          ("label", VFun "labelFormatters.label")])
             [attrName; model]
       | _ => Throw
       end.

(** [formatFunctions.formatLabel] *)
Definition formatLabel (attrName model : jsval) : completion jsval :=
  cbind (js_get defaultOptions "labelFormatter") (fun name =>
  defaultLabelFormatters (to_string name) attrName model).

(** ** Built in validators *)

(** [trim]: [null] gives the empty string, [undefined] has no primitive to
    trim. *)
Definition trim (text : jsval) : completion string :=
  match text with
  | VNull => Normal ""
  | VUndef => Throw
  | _ => Normal (trim_string (to_string text))
  end.

Definition isNumber (value : jsval) : bool :=
  isNumberValue value
  || match value with
     | VStr s => regex_match host (defaultPatterns "number") s
     | _ => false
     end.

Definition hasValue (value : jsval) : bool :=
  negb (isNull value || isUndefined value
        || match value with
           | VStr s => String.eqb (trim_string s) ""
           | _ => false
           end).

(** [_.include] *)
Definition include (obj target : jsval) : bool :=
  existsb (fun x => strict_eq x target) (each_values obj).

(** A validator body either returns through [validation.resolve()] or
    [validation.reject(message)], or raises before it gets there. *)
Definition settle (body : completion behaviour) : behaviour :=
  match body with
  | Normal b => b
  | Throw => Faults
  end.

Definition trimmed_length (value : jsval) : completion jsval :=
  t <-- trim value ;; Normal (VNum (str_length t)).

(** [validation.reject(this.format(defaultMessages[kind], this.formatLabel(attr, model), ...))] *)
Definition reject_message (kind : string) (attr model : jsval)
  (args : completion (list jsval)) : completion behaviour :=
  l <-- formatLabel attr model ;;
  a <-- args ;;
  Normal (Rejects (VStr (format (defaultMessages kind) (l :: a)))).

Definition both (o : jsval) : completion (list jsval) :=
  a <-- js_get o "0" ;; b <-- js_get o "1" ;; Normal [a; b].

(** [defaultValidators.fn] *)
Definition validator_fn (value attr fn model computed : jsval) : behaviour :=
  settle (
    f <-- rule_function fn model ;;
    match f with
    | VFun g => Normal (call_validator host g [model; value; attr; computed])
    | _ => Throw
    end).

(** [defaultValidators.required] *)
Definition validator_required (value attr required model computed : jsval) : behaviour :=
  settle (
    isRequired <-- (match required with
                    | VFun f => call_function host f model [value; attr; computed]
                    | _ => Normal required
                    end) ;;
    if negb (truthy isRequired) && negb (hasValue value) then Normal Resolves
    else if truthy isRequired && negb (hasValue value)
         then reject_message "required" attr model (Normal [])
         else Normal Resolves).

(** [defaultValidators.acceptance] *)
Definition validator_acceptance (value attr accept model : jsval) : behaviour :=
  settle (
    if negb (strict_eq value (VStr "true"))
       && (negb (isBoolean value) || strict_eq value (VBool false))
    then reject_message "acceptance" attr model (Normal [])
    else Normal Resolves).

(** [defaultValidators.min] *)
Definition validator_min (value attr minValue model : jsval) : behaviour :=
  settle (
    if negb (isNumber value) || js_lt value minValue
    then reject_message "min" attr model (Normal [minValue])
    else Normal Resolves).

(** [defaultValidators.max] *)
Definition validator_max (value attr maxValue model : jsval) : behaviour :=
  settle (
    if negb (isNumber value) || js_gt value maxValue
    then reject_message "max" attr model (Normal [maxValue])
    else Normal Resolves).

(** [defaultValidators.range] *)
Definition validator_range (value attr range model : jsval) : behaviour :=
  settle (
    bad <-- (if negb (isNumber value) then Normal true
             else low <-- js_get range "0" ;;
                  if js_lt value low then Normal true
                  else high <-- js_get range "1" ;; Normal (js_gt value high)) ;;
    if bad : bool then reject_message "range" attr model (both range)
    else Normal Resolves).

(** [defaultValidators.length] *)
Definition validator_length (value attr length model : jsval) : behaviour :=
  settle (
    bad <-- (if negb (hasValue value) then Normal true
             else n <-- trimmed_length value ;; Normal (negb (strict_eq n length))) ;;
    if bad : bool then reject_message "length" attr model (Normal [length])
    else Normal Resolves).

(** [defaultValidators.minLength] *)
Definition validator_minLength (value attr minLength model : jsval) : behaviour :=
  settle (
    bad <-- (if negb (hasValue value) then Normal true
             else n <-- trimmed_length value ;; Normal (js_lt n minLength)) ;;
    if bad : bool then reject_message "minLength" attr model (Normal [minLength])
    else Normal Resolves).

(** [defaultValidators.maxLength] *)
Definition validator_maxLength (value attr maxLength model : jsval) : behaviour :=
  settle (
    bad <-- (if negb (hasValue value) then Normal true
             else n <-- trimmed_length value ;; Normal (js_gt n maxLength)) ;;
    if bad : bool then reject_message "maxLength" attr model (Normal [maxLength])
    else Normal Resolves).

(** [defaultValidators.rangeLength] *)
Definition validator_rangeLength (value attr range model : jsval) : behaviour :=
  settle (
    bad <-- (if negb (hasValue value) then Normal true
             else n <-- trimmed_length value ;;
                  low <-- js_get range "0" ;;
                  if js_lt n low then Normal true
                  else m <-- trimmed_length value ;;
                       high <-- js_get range "1" ;; Normal (js_gt m high)) ;;
    if bad : bool then reject_message "rangeLength" attr model (both range)
    else Normal Resolves).

(** [defaultValidators.oneOf] *)
Definition validator_oneOf (value attr values model : jsval) : behaviour :=
  settle (
    if negb (include values value)
    then reject_message "oneOf" attr model
           (j <-- join values ", " ;; Normal [VStr j])
    else Normal Resolves).

(** [defaultValidators.equalTo] *)
Definition validator_equalTo (value attr equalTo model computed : jsval) : behaviour :=
  settle (
    other <-- js_get computed (to_string equalTo) ;;
    if negb (strict_eq value other)
    then l <-- formatLabel attr model ;;
         o <-- formatLabel equalTo model ;;
         Normal (Rejects (VStr (format (defaultMessages "equalTo") [l; o])))
    else Normal Resolves).

(** [defaultValidators.pattern] *)
Definition validator_pattern (value attr pattern model : jsval) : behaviour :=
  settle (
    let known := defaultPatterns (to_string pattern) in
    if negb (hasValue value)
       || negb (regex_match host (if truthy known then known else pattern)
                  (to_string value))
    then reject_message "pattern" attr model (Normal [pattern])
    else Normal Resolves).

(** [defaultValidators[name]] *)
Definition defaultValidators (name : string) : option kind :=
  if String.eqb name "fn" then Some Kfn
  else if String.eqb name "required" then Some Krequired
  else if String.eqb name "acceptance" then Some Kacceptance
  else if String.eqb name "min" then Some Kmin
  else if String.eqb name "max" then Some Kmax
  else if String.eqb name "range" then Some Krange
  else if String.eqb name "length" then Some Klength
  else if String.eqb name "minLength" then Some KminLength
  else if String.eqb name "maxLength" then Some KmaxLength
  else if String.eqb name "rangeLength" then Some KrangeLength
  else if String.eqb name "oneOf" then Some KoneOf
  else if String.eqb name "equalTo" then Some KequalTo
  else if String.eqb name "pattern" then Some Kpattern
  else match inherited name with
       | Some (VFun g) => Some (Knative g)
       | _ => None
       end.

(** [f.call(ctx, result, value, attr, param, model, computed)] for a built in [f] *)
Definition apply_kind (k : kind) (value attr param model computed : jsval) : behaviour :=
  match k with
  | Kfn => validator_fn value attr param model computed
  | Krequired => validator_required value attr param model computed
  | Kacceptance => validator_acceptance value attr param model
  | Kmin => validator_min value attr param model
  | Kmax => validator_max value attr param model
  | Krange => validator_range value attr param model
  | Klength => validator_length value attr param model
  | KminLength => validator_minLength value attr param model
  | KmaxLength => validator_maxLength value attr param model
  | KrangeLength => validator_rangeLength value attr param model
  | KoneOf => validator_oneOf value attr param model
  | KequalTo => validator_equalTo value attr param model computed
  | Kpattern => validator_pattern value attr param model
  | Knative g => call_validator host g [model; value; attr; param; computed]
  end.

(** ** Flattening *)

(** The test that sends [flatten] into a value. *)
Definition is_nested (val : jsval) : bool :=
  match val with
  | VArr _ => true
  | VObj Plain _ => true
  | _ => false
  end.

(** [_.each] walks an object that has a numeric [length] by index, from 0
    to below the length, and the callback skips the indices that are not own
    properties; it walks any other object by key, an array by element and a
    string by character. *)
Fixpoint flatten (obj : jsval) (into : props) (prefix : string) {struct obj} : props :=
  match obj with
  | VObj _ ps =>
      match numeric_length ps with
      | Some length =>
          (fix each (count i : nat) (into : props) {struct count} : props :=
             match count with
             | O => into
             | S count' =>
                 each count' (S i)
                   ((fix own (qs : props) {struct qs} : props :=
                       match qs with
                       | [] => into
                       | (key, val) :: rest =>
                           if String.eqb key (key_of_index i)
                           then if is_nested val
                                then flatten val into (prefix ++ key ++ ".")
                                else set_prop (prefix ++ key) val into
                           else own rest
                       end) ps)
             end) (Z.to_nat length) 0%nat into
      | None =>
          (fix each (ps : props) (into : props) {struct ps} : props :=
             match ps with
             | [] => into
             | (key, val) :: rest =>
                 each rest
                   (if is_nested val then flatten val into (prefix ++ key ++ ".")
                    else set_prop (prefix ++ key) val into)
             end) ps into
      end
  | VStr s =>
      (fix each (i : nat) (s : string) (into : props) {struct s} : props :=
         match s with
         | EmptyString => into
         | String c rest =>
             each (S i) rest (set_prop (prefix ++ key_of_index i) (VStr (String c "")) into)
         end) 0%nat s into
  | VArr xs =>
      (fix each (i : nat) (xs : list jsval) (into : props) {struct xs} : props :=
         match xs with
         | [] => into
         | val :: rest =>
             each (S i) rest
               (if is_nested val then flatten val into (prefix ++ key_of_index i ++ ".")
                else set_prop (prefix ++ key_of_index i) val into)
         end) 0%nat xs into
  | _ => into
  end.

(** ** Validation *)

(** [v.k] for a name that is an own property of [v] when [v] has it: a name
    taken from the keys of [v], or one that [Object.prototype] does not
    have. *)
Definition field (v : jsval) (k : string) : jsval :=
  match lookup k (own_props v) with
  | Some x => x
  | None => VUndef
  end.

Definition getValidatedAttrs (model : jsval) : completion jsval :=
  validation <-- js_get model "validation" ;;
  Normal (VObj Plain
            (fold_left (fun memo key => set_prop key VUndef memo)
               (keys (if truthy validation then validation else VObj Plain [])) [])).

Definition getValidators (model attr : jsval) : completion (list validator) :=
  validation <-- js_get model "validation" ;;
  declared <-- (if truthy validation
                then d <-- js_get validation (to_string attr) ;;
                     Normal (if truthy d then d else VObj Plain [])
                else Normal (VObj Plain [])) ;;
  let attrValidationSet :=
    if isFunction declared || isString declared
    then VObj Plain [("fn", declared)] else declared in
  let attrValidationSet :=
    match attrValidationSet with
    | VArr items => items
    | single => [single]
    end in
  fold_right
    (fun attrValidation rest =>
       names <-- js_keys attrValidation ;;
       memo <-- rest ;;
       Normal (map (fun name =>
                      {| fn := defaultValidators name;
                         val := field attrValidation name;
                         msg := field attrValidation "msg" |})
                 (without names "msg") ++ memo)%list)
    (Normal []) attrValidationSet.

(** [o.name(args)] on a value that is not a Deferred. *)
Definition call_method (o : jsval) (name : string) (args : list jsval) : Run jsval :=
  f <- lift (js_get o name) ;;
  match f with
  | VFun g => lift (call_function host g o args)
  | _ => raise
  end.

Definition resolve (d : handle) : Run handle :=
  match d with
  | Deferred Pending => ret (Deferred (Resolved tt))
  | Deferred st => ret (Deferred st)
  | Other v => call_method v "resolve" [] ;; ret (Other v)
  end.

Definition reject (d : handle) (e : jsval) : Run handle :=
  match d with
  | Deferred Pending => ret (Deferred (Rejected e))
  | Deferred st => ret (Deferred st)
  | Other v => call_method v "reject" [e] ;; ret (Other v)
  end.

Definition promise (d : handle) : Run handle :=
  match d with
  | Deferred st => ret (Deferred st)
  | Other v => p <- call_method v "promise" [] ;; ret (Other p)
  end.

(** [validator.fn.call(ctx, result, value, attr, validator.val, model, computed)]:
    calling what is not a function raises. *)
Definition call (v : validator) (value attr model computed : jsval) : behaviour :=
  match fn v with
  | Some k => apply_kind k value attr (val v) model computed
  | None => Faults
  end.

Section Attr.

Variables model attr value computed : jsval.

(** [validators] is what is left of the queue, [validator] the entry just
    shifted from it.  A fault raised by the call is caught and rejects the
    master with [validator.msg]; so does a rejection of the result handle,
    whose own message is dropped. *)
Fixpoint invokeValidator (validators : list validator) (validator : validator)
  (masterDeferred : handle) {struct validators} : Run handle :=
  emit (Invoke attr validator value computed) ;;
  match call validator value attr model computed with
  | Resolves =>
      emit (Settle attr validator true) ;;
      match validators with
      | nextValidation :: rest => invokeValidator rest nextValidation masterDeferred
      | [] => resolve masterDeferred
      end
  | Rejects errorMessage =>
      emit (Settle attr validator false) ;;
      reject masterDeferred (msg validator)
  | Faults => reject masterDeferred (msg validator)
  | Stalls => ret masterDeferred
  end.

Definition validateAttr (masterDeferred : handle) : Run handle :=
  validators <- lift (getValidators model attr) ;;
  settled <- match validators with
             | [] => resolve masterDeferred
             | first :: rest => invokeValidator rest first masterDeferred
             end ;;
  promise settled.

End Attr.

Section Model.

Variables model computed : jsval.

(** [pairs] is what is left of the queue, [pair] the entry just shifted
    from it; [invalidAttrs] and [isValid] are the variables of the enclosing
    [validateModel].  The two handlers bound to [result] continue with the
    next pair whether the attribute passed or failed. *)
Fixpoint invokeModel (pairs : list (string * jsval)) (pair : string * jsval)
  (invalidAttrs : props) (isValid : bool) {struct pairs} : Run (outcome verdict) :=
  let attr := fst pair in
  let value := snd pair in
  emit (Visit attr value) ;;
  result <- validateAttr model (VStr attr) value computed (Deferred Pending) ;;
  match result with
  | Deferred (Resolved _) =>
      match pairs with
      | nextPair :: rest => invokeModel rest nextPair invalidAttrs isValid
      | [] => ret (Resolved {| invalidAttrs := invalidAttrs; isValid := isValid |})
      end
  | Deferred (Rejected errorMessage) =>
      let invalidAttrs := set_prop attr errorMessage invalidAttrs in
      let isValid := false in
      match pairs with
      | nextPair :: rest => invokeModel rest nextPair invalidAttrs isValid
      | [] => ret (Resolved {| invalidAttrs := invalidAttrs; isValid := isValid |})
      end
  | _ => ret Pending
  end.

End Model.

(** The continuation of a validator that settles its result handle runs
    inside the call of that validator, which [invokeValidator] makes in a
    [try]: a fault raised further down the queue (the rules of an attribute
    cannot be read) is caught there, or is lost in the later turn in which the
    validator settled, and the run stays pending.  The fault reaches the
    caller only when no validator has settled a result handle before. *)
Definition contained (m : Run (outcome verdict)) : Run (outcome verdict) :=
  match m with
  | (l, Throw) =>
      if existsb (fun e => match e with Settle _ _ _ => true | _ => false end) l
      then (l, Normal Pending)
      else (l, Throw)
  | _ => m
  end.

(** [pairs.shift()] of an empty queue is [undefined], and [pair[0]] raises. *)
Definition validateModel (model attrs : jsval) : Run (outcome verdict) :=
  let computed := clone attrs in
  let flattened := flatten attrs [] "" in
  match pairs_of flattened with
  | [] => raise
  | first :: rest => contained (invokeModel model computed rest first [] true)
  end.

(** ** The methods mixed in on a model *)

Fixpoint each {A : Type} (f : A -> Run unit) (l : list A) : Run unit :=
  match l with
  | [] => ret tt
  | x :: rest => f x ;; each f rest
  end.

(** [!h] for what [validateAttr] returned. *)
Definition not_handle (h : handle) : jsval :=
  match h with
  | Deferred _ => VBool false
  | Other v => VBool (negb (truthy v))
  end.

Section Mixin.

Variables view options : jsval.

Definition mixin_preValidate (this attr value : jsval) : Run handle :=
  attributes <- lift (js_get this "attributes") ;;
  validateAttr this attr value (extend [attributes]) (Deferred Pending).

(** Returns the model as the run leaves it and the state of the promise
    handed to the caller. *)
Definition mixin_validate (this attrs setOptions : jsval) : Run (jsval * outcome unit) :=
  let model := this in
  let validateAll := negb (truthy attrs) in
  let opt := extend [options; setOptions] in
  validatedAttrs <- lift (getValidatedAttrs model) ;;
  attributes <- lift (js_get model "attributes") ;;
  let allAttrs := extend [validatedAttrs; attributes; attrs] in
  let changedAttrs := flatten (if truthy attrs then attrs else allAttrs) [] "" in
  settled <- validateModel model allAttrs ;;
  match settled with
  | Resolved result =>
      let model := js_set model "_isValid" (VBool (isValid result)) in
      each (fun attr =>
              let invalid := hasOwnProperty (invalidAttrs result) attr in
              if negb invalid
              then emit (CallValid view (VStr attr) (field opt "selector"))
              else ret tt)
        (keys validatedAttrs) ;;
      each (fun attr =>
              let invalid := hasOwnProperty (invalidAttrs result) attr in
              let changed := hasOwnProperty changedAttrs attr in
              if invalid && (changed || validateAll)
              then emit (CallInvalid view (VStr attr)
                           (field (VObj Plain (invalidAttrs result)) attr)
                           (field opt "selector"))
              else ret tt)
        (keys validatedAttrs) ;;
      emit (Trigger "validated"
              [field model "_isValid"; model; VObj Plain (invalidAttrs result)]) ;;
      emit (Trigger ("validated:" ++ (if truthy (field model "_isValid")
                                      then "valid" else "invalid"))
              [model; VObj Plain (invalidAttrs result)]) ;;
      if negb (truthy (field opt "forceUpdate"))
         && (0 <? Z.of_nat (List.length
                              (intersection (map fst (invalidAttrs result))
                                 (map fst changedAttrs))))
      then ret (model, Pending)
      else if truthy (field model "_isValid")
           then ret (model, Resolved tt)
           else ret (model, Rejected VUndef)
  | _ => ret (model, Pending)
  end.

(** [validateAttr] is called here with four arguments: the model stands
    where the master Deferred is expected, the option where the model is,
    the flattened value where the attribute name is, and [computed] is
    [undefined]. *)
Definition mixin_isValid (this option : jsval) : Run (jsval * jsval) :=
  attributes <- lift (js_get this "attributes") ;;
  let flattened := VObj Plain (flatten attributes [] "") in
  if isString option then
    r <- validateAttr option (read flattened (to_string option))
           (extend [attributes]) VUndef (Other this) ;;
    ret (this, not_handle r)
  else
    match option with
    | VArr items =>
        r <- fold_left
               (fun acc attr =>
                  memo <- acc ;;
                  if truthy memo
                  then h <- validateAttr attr (read flattened (to_string attr))
                              (extend [attributes]) VUndef (Other this) ;;
                       ret (not_handle h)
                  else ret memo)
               items (ret (VBool true)) ;;
        ret (this, r)
    | _ =>
        this' <- (if strict_eq option (VBool true)
                  then r <- mixin_validate this VUndef VUndef ;; ret (fst r)
                  else ret this) ;;
        validation <- lift (js_get this' "validation") ;;
        if truthy validation
        then ret (this', field this' "_isValid")
        else ret (this', VBool true)
    end.

End Mixin.

End Engine.

(** ** Configuration and entities used below *)

(** The literal that initialises [defaultOptions]. *)
Definition shippedOptions : jsval :=
  VObj Plain
    [("forceUpdate", VBool false);
     ("selector", VStr "name");
     ("labelFormatter", VStr "sentenceCase");
     ("valid", VFun "Function.prototype");
     ("invalid", VFun "Function.prototype")].

(** A host without user functions: nothing matches, nothing coerces. *)
Definition bareHost : Host :=
  {| call_validator := fun _ _ => Faults;
     call_function := fun _ _ _ => Throw;
     regex_match := fun _ _ => false;
     coerced_lt := fun _ _ => false;
     object_string := fun _ => "[object Object]" |}.

(** A host whose user function ["never"] keeps its result handle pending. *)
Definition stallingHost : Host :=
  {| call_validator := fun name _ => if String.eqb name "never" then Stalls else Resolves;
     call_function := fun _ _ _ => Throw;
     regex_match := fun _ _ => false;
     coerced_lt := fun _ _ => false;
     object_string := fun _ => "[object Object]" |}.

Definition entity (validation attributes : props) : jsval :=
  VObj ModelObj
    [("attributes", VObj Plain attributes); ("validation", VObj Plain validation)].

(** [{ age: { required: true, min: 18 } }] with [age: 15] *)
Definition ageEntity : jsval :=
  entity [("age", VObj Plain [("required", VBool true); ("min", VNum 18)])]
         [("age", VNum 15)].

(** [{ email: { required: false, pattern: 'email' } }] with [email: ''] *)
Definition emailEntity : jsval :=
  entity [("email", VObj Plain [("required", VBool false); ("pattern", VStr "email")])]
         [("email", VStr "")].

(** [{ name: { required: true } }] on an entity without attributes *)
Definition namelessEntity : jsval :=
  entity [("name", VObj Plain [("required", VBool true)])] [].

(** [{ confirm: { equalTo: 'password' } }] with stored values that differ *)
Definition passwordEntity (password confirm : jsval) : jsval :=
  entity [("confirm", VObj Plain [("equalTo", VStr "password")])]
         [("password", password); ("confirm", confirm)].

(** [{ first: aFunction, second: { required: true } }] *)
Definition stalledEntity : jsval :=
  entity [("first", VFun "never"); ("second", VObj Plain [("required", VBool true)])]
         [("first", VNum 1)].

(** [{ nick: { required: true, bogus: 1, msg: 'bad nick' } }]: there is no
    validator named [bogus]. *)
Definition nickEntity : jsval :=
  entity [("nick", VObj Plain [("required", VBool true); ("bogus", VNum 1);
                               ("msg", VStr "bad nick")])]
         [("nick", VStr "x")].

(** [{ name: aFunction }] with [name: 'x'] *)
Definition freshEntity : jsval :=
  entity [("name", VFun "fresh")] [("name", VStr "x")].

(** [{ 'user.confirm': { equalTo: 'user.password' } }] on an entity that
    keeps both values in the nested attribute [user]. *)
Definition nestedPasswordEntity (password confirm : jsval) : jsval :=
  entity [("user.confirm", VObj Plain [("equalTo", VStr "user.password")])]
         [("user", VObj Plain [("password", password); ("confirm", confirm)])].

(** [{ age: { min: 18 }, name: { required: true } }] with [age: 15] and
    [name: 'Ann'] *)
Definition memberEntity : jsval :=
  entity [("age", VObj Plain [("min", VNum 18)]);
          ("name", VObj Plain [("required", VBool true)])]
         [("age", VNum 15); ("name", VStr "Ann")].

(** [{ age: { required: true, min: 18, max: 10 } }] with [age: 15] *)
Definition boundedEntity : jsval :=
  entity [("age", VObj Plain [("required", VBool true); ("min", VNum 18); ("max", VNum 10)])]
         [("age", VNum 15)].

(** The options [bind] builds with [forceUpdate: true]. *)
Definition forcedOptions : jsval :=
  extend [shippedOptions; VObj Plain [("forceUpdate", VBool true)]].

(** ** Reading a trace *)

(** The validators called, in the order of the calls. *)
Definition invoked (t : list event) : list validator :=
  flat_map (fun e => match e with Invoke _ v _ _ => [v] | _ => [] end) t.

(** The validators whose result handle was resolved, and those whose result
    handle was rejected. *)
Definition passed (t : list event) : list validator :=
  flat_map (fun e => match e with Settle _ v true => [v] | _ => [] end) t.
Definition failed (t : list event) : list validator :=
  flat_map (fun e => match e with Settle _ v false => [v] | _ => [] end) t.

(** The attributes whose chain was started, with the value handed to it. *)
Definition visited (t : list event) : list (string * jsval) :=
  flat_map (fun e => match e with Visit a v => [(a, v)] | _ => [] end) t.

(** The descriptors of a list up to and including the first one at which
    [stop] holds: where a chain that stops at the first failure gets to. *)
Fixpoint through_first {A : Type} (stop : A -> bool) (l : list A) : list A :=
  match l with
  | [] => []
  | x :: rest => x :: if stop x then [] else through_first stop rest
  end.

(** The calls of [valid] and [invalid] made for one attribute. *)
Definition callbacks_for (a : string) (t : list event) : list event :=
  filter (fun e => match e with
                   | CallValid _ (VStr b) _ | CallInvalid _ (VStr b) _ _ => String.eqb a b
                   | _ => false
                   end) t.

(** ** Functions that are handed a result handle *)

(** The function a descriptor hands its result handle to, when it is not one
    of the built in validators: the function of a function rule (given, or a
    method of the model named by a string), or a function of
    [Object.prototype] that the kind's name reaches. *)
Definition callee (v : validator) (model : jsval) : option string :=
  match fn v with
  | Some Kfn =>
      match rule_function (val v) model with
      | Normal (VFun g) => Some g
      | _ => None
      end
  | Some (Knative g) => Some g
  | _ => None
  end.

(** ** User functions and the validity flag *)

(** The functions of a host do not look at property [k] of the model they
    are given. *)
Definition blind_to (k : string) (host : Host) : Prop :=
  (forall g m x rest,
      call_validator host g (js_set m k x :: rest) = call_validator host g (m :: rest))
  /\ (forall f m x args,
         call_function host f (js_set m k x) args = call_function host f m args)
  /\ (forall f this a m x,
         call_function host f this [a; js_set m k x] = call_function host f this [a; m]).

(** A host whose user function ["fresh"] passes a model that has no truthy
    [_isValid] and fails any other. *)
Definition flagHost : Host :=
  {| call_validator := fun name args =>
       match args with
       | m :: _ => if truthy (read m "_isValid") then Rejects VUndef else Resolves
       | [] => Resolves
       end;
     call_function := fun _ _ _ => Throw;
     regex_match := fun _ _ => false;
     coerced_lt := fun _ _ => false;
     object_string := fun _ => "[object Object]" |}.

(** ** Paths and answers *)

(** A flattened pair with its path put under a prefix. *)
Definition prefixed (prefix : string) (kv : string * jsval) : string * jsval :=
  (prefix ++ fst kv, snd kv).

(** The name has a dot in it. *)
Definition dotted (s : string) : bool :=
  existsb (Ascii.eqb "."%char) (list_ascii_of_string s).

(** The validator resolved its result handle. *)
Definition resolves (b : behaviour) : bool :=
  match b with
  | Resolves => true
  | _ => false
  end.

(** The calls of the callbacks [valid] and [invalid] in a trace. *)
Definition callbacks (t : list event) : list event :=
  filter (fun e => match e with
                   | CallValid _ _ _ | CallInvalid _ _ _ _ => true
                   | _ => false
                   end) t.

(** ** Binding and unbinding *)

(** [Validation.callbacks]: the two callbacks that mark the view, as
    function values. *)
Definition defaultCallbacks : jsval :=
  VObj Plain [("valid", VFun "callbacks.valid"); ("invalid", VFun "callbacks.invalid")].

(** The object [mixin(view, options)] returns; the three function values
    stand for the closures over [view] and [options]. *)
Definition mixin_object : jsval :=
  VObj Plain
    [("preValidate", VFun "mixin.preValidate");
     ("isValid", VFun "mixin.isValid");
     ("validate", VFun "mixin.validate")].

(** [_.extend(target, source)] on a target that is an object. *)
Definition extend_onto (target source : jsval) : jsval :=
  match target with
  | VObj c ps => VObj c (extend_props ps source)
  | _ => target
  end.

(** [bindModel]: [_.extend(model, mixin(view, options))] *)
Definition bindModel (model : jsval) : jsval := extend_onto model mixin_object.

Definition delete_prop (k : string) (ps : props) : props :=
  filter (fun kv => negb (String.eqb (fst kv) k)) ps.

(** [delete o[k]] *)
Definition js_delete (o : jsval) (k : string) : completion jsval :=
  match o with
  | VUndef | VNull => Throw
  | VObj c ps => Normal (VObj c (delete_prop k ps))
  | _ => Normal o
  end.

Definition unbindModel (model : jsval) : completion jsval :=
  m <-- js_delete model "validate" ;;
  m <-- js_delete m "preValidate" ;;
  js_delete m "isValid".

(** [Validation.configure]: the new value of the global [defaultOptions]. *)
Definition configure (defaultOptions options : jsval) : jsval :=
  extend_onto defaultOptions options.

(** A collection holds its models in the array [models]; [collection.each]
    runs over it, and only a collection has the method. *)
Definition collection_each (f : jsval -> completion jsval) (collection : jsval)
  : completion jsval :=
  match collection with
  | VObj CollectionObj ps =>
      match lookup "models" ps with
      | Some (VArr models) =>
          ms <-- fold_right (fun m acc => rest <-- acc ;; m' <-- f m ;; Normal (m' :: rest))
                   (Normal []) models ;;
          Normal (VObj CollectionObj (set_prop "models" (VArr ms) ps))
      | _ => Normal collection
      end
  | _ => Throw
  end.

(** [collection.bind(event, handler, context)] and
    [collection.unbind(event, handler)] *)
Inductive subscription : Type :=
| Subscribe (event handler : string) (context : jsval)
| Unsubscribe (event handler : string).

(** What [Validation.bind] and [Validation.unbind] leave: the view with its model or the models of
    its collection changed, the options the bound methods close over, and the
    subscriptions made on the collection. *)
Record binding : Type := {
  bound_view : jsval;
  bound_options : jsval;
  subscriptions : list subscription
}.

(** [Validation.bind] *)
Definition Validation_bind (defaultOptions view options : jsval) : completion binding :=
  model <-- js_get view "model" ;;
  collection <-- js_get view "collection" ;;
  let options := extend [defaultOptions; defaultCallbacks; options] in
  if isUndefined model && isUndefined collection then Throw
  else if truthy model then
    Normal {| bound_view := js_set view "model" (bindModel model);
              bound_options := options;
              subscriptions := [] |}
  else if truthy collection then
    bound <-- collection_each (fun m => Normal (bindModel m)) collection ;;
    Normal {| bound_view := js_set view "collection" bound;
              bound_options := options;
              subscriptions :=
                [Subscribe "add" "collectionAdd"
                   (VObj Plain [("view", view); ("options", options)]);
                 Subscribe "remove" "collectionRemove" VUndef] |}
  else Normal {| bound_view := view; bound_options := options; subscriptions := [] |}.

(** [Validation.unbind] *)
Definition Validation_unbind (view : jsval) : completion (jsval * list subscription) :=
  model <-- js_get view "model" ;;
  collection <-- js_get view "collection" ;;
  view <-- (if truthy model
            then m <-- unbindModel model ;; Normal (js_set view "model" m)
            else Normal view) ;;
  if truthy collection then
    unbound <-- collection_each unbindModel collection ;;
    Normal (js_set view "collection" unbound,
            [Unsubscribe "add" "collectionAdd"; Unsubscribe "remove" "collectionRemove"])
  else Normal (view, []).

(** * Properties *)

(** ** The run monad *)

Lemma bind_normal {A B} (l : list event) (a : A) (k : A -> Run B) :
  bind (l, Normal a) k = ((l ++ trace (k a))%list, result_of (k a)).
Proof. unfold bind, trace, result_of. destruct (k a); reflexivity. Qed.

Lemma bind_throw {A B} (l : list event) (k : A -> Run B) :
  bind (l, Throw) k = (l, Throw).
Proof. reflexivity. Qed.

Lemma bind_emit {B} (e : event) (k : unit -> Run B) :
  bind (emit e) k = (e :: trace (k tt), result_of (k tt)).
Proof. unfold emit. rewrite bind_normal. reflexivity. Qed.

Lemma trace_bind {A B} (m : Run A) (k : A -> Run B) (a : A) :
  result_of m = Normal a -> trace (bind m k) = (trace m ++ trace (k a))%list.
Proof.
  destruct m as [l c]; unfold result_of at 1; cbn [snd]; intros ->.
  rewrite bind_normal. reflexivity.
Qed.

Lemma result_bind {A B} (m : Run A) (k : A -> Run B) (a : A) :
  result_of m = Normal a -> result_of (bind m k) = result_of (k a).
Proof.
  destruct m as [l c]; unfold result_of at 1; cbn [snd]; intros ->.
  rewrite bind_normal. reflexivity.
Qed.

Lemma bind_ext {A B} (m : Run A) (k k' : A -> Run B) :
  (forall a, k a = k' a) -> bind m k = bind m k'.
Proof. intros H. destruct m as [l [a|]]; [|reflexivity]. simpl. rewrite H. reflexivity. Qed.

(** ** Faults down the queue *)

Lemma contained_trace (m : Run (outcome verdict)) : trace (contained m) = trace m.
Proof. destruct m as [l [a|]]; [reflexivity|]. cbn [contained]. destruct (existsb _ l); reflexivity. Qed.

Lemma contained_normal (m : Run (outcome verdict)) (a : outcome verdict) :
  result_of m = Normal a -> contained m = m.
Proof. destruct m as [l [b|]]; [reflexivity | discriminate]. Qed.

Lemma contained_settled (m : Run (outcome verdict)) (a : outcome verdict) :
  result_of (contained m) = Normal a -> a <> Pending -> result_of m = Normal a.
Proof.
  destruct m as [l [b|]]; [intros H _; exact H|].
  cbn [contained]. destruct (existsb _ l); cbn [result_of snd]; [|discriminate].
  intros [= <-] H. contradiction.
Qed.

Lemma contained_resolved (m : Run (outcome verdict)) (l : list event) (r : verdict) :
  contained m = (l, Normal (Resolved r)) -> m = (l, Normal (Resolved r)).
Proof.
  destruct m as [l' [b|]]; [intros H; exact H|].
  cbn [contained]. destruct (existsb _ l'); discriminate.
Qed.

(** ** An empty queue of attributes *)

Lemma validateModel_empty host defaultOptions model attrs :
  flatten attrs [] "" = [] ->
  validateModel host defaultOptions model attrs = ([], Throw).
Proof. unfold validateModel, pairs_of. intros ->. reflexivity. Qed.

Lemma extend_nothing (attrs : jsval) :
  own_props attrs = [] ->
  extend [VObj Plain []; VObj Plain []; attrs] = VObj Plain [].
Proof. unfold extend, extend_props; simpl. intros ->. reflexivity. Qed.

(** C10: when the attribute set to validate flattens to the empty map,
    [validateModel] raises instead of settling as valid, and so does
    [validate] on an entity that has no attribute and no rule. *)
Theorem empty_attribute_set_raises
  (host : Host) (defaultOptions view options model this attrs setOptions rules : jsval) :
  flatten attrs [] "" = [] ->
  js_get this "attributes" = Normal (VObj Plain []) ->
  js_get this "validation" = Normal rules ->
  keys (if truthy rules then rules else VObj Plain []) = [] ->
  validateModel host defaultOptions model attrs = ([], Throw)
  /\ (own_props attrs = [] ->
      mixin_validate host defaultOptions view options this attrs setOptions
      = ([], Throw)).
Proof.
  intros Hflat Hattrs Hrules Hkeys. split.
  - apply validateModel_empty; assumption.
  - intros Hown. unfold mixin_validate, getValidatedAttrs.
    rewrite Hrules, Hattrs. cbn [cbind]. rewrite Hkeys. cbn [fold_left].
    unfold lift. rewrite !bind_normal. cbn [trace result_of fst snd app].
    rewrite (extend_nothing attrs Hown).
    rewrite validateModel_empty by reflexivity.
    reflexivity.
Qed.

Lemma empty_attribute_set_raises_witness :
  validateModel bareHost shippedOptions (entity [] []) (VObj Plain []) = ([], Throw)
  /\ mixin_validate bareHost shippedOptions VNull shippedOptions (entity [] [])
       VUndef VUndef = ([], Throw).
Proof.
  destruct (empty_attribute_set_raises bareHost shippedOptions VNull shippedOptions
              (entity [] []) (entity [] []) (VObj Plain []) VUndef (VObj Plain [])
              eq_refl eq_refl eq_refl eq_refl) as [H1 _].
  destruct (empty_attribute_set_raises bareHost shippedOptions VNull shippedOptions
              (entity [] []) (entity [] []) VUndef VUndef (VObj Plain [])
              eq_refl eq_refl eq_refl eq_refl) as [_ H2].
  split; [exact H1 | exact (H2 eq_refl)].
Defined.

(** ** The chain of one attribute *)

Lemma trace_bind_any {A B} (m : Run A) (k : A -> Run B) :
  trace (bind m k)
  = (trace m ++ match result_of m with Normal a => trace (k a) | Throw => [] end)%list.
Proof.
  destruct m as [l [a|]].
  - rewrite bind_normal. reflexivity.
  - rewrite bind_throw. simpl. rewrite app_nil_r. reflexivity.
Qed.

Section ChainFacts.

Variable host : Host.
Variables defaultOptions model attr value computed : jsval.

Let run := invokeValidator host defaultOptions model attr value computed.
Let answer (v : validator) := call host defaultOptions v value attr model computed.

Lemma call_method_silent (o : jsval) (name : string) (args : list jsval) :
  trace (call_method host o name args) = [].
Proof.
  unfold call_method, lift. destruct (js_get o name) as [f|].
  - rewrite bind_normal. destruct f; reflexivity.
  - reflexivity.
Qed.

Lemma resolve_silent (d : handle) : trace (resolve host d) = [].
Proof.
  destruct d as [[| |]|v]; try reflexivity.
  unfold resolve. rewrite trace_bind_any, call_method_silent.
  destruct (result_of _); reflexivity.
Qed.

Lemma reject_silent (d : handle) (e : jsval) : trace (reject host d e) = [].
Proof.
  destruct d as [[| |]|v]; try reflexivity.
  unfold reject. rewrite trace_bind_any, call_method_silent.
  destruct (result_of _); reflexivity.
Qed.

Lemma promise_silent (d : handle) : trace (promise host d) = [].
Proof.
  destruct d as [st|v]; try reflexivity.
  unfold promise. rewrite trace_bind_any, call_method_silent.
  destruct (result_of _); reflexivity.
Qed.

Lemma run_step (rest : list validator) (v : validator) (md : handle) :
  run rest v md
  = (emit (Invoke attr v value computed) ;;
     match answer v with
     | Resolves =>
         emit (Settle attr v true) ;;
         match rest with
         | next :: rest' => run rest' next md
         | [] => resolve host md
         end
     | Rejects _ => emit (Settle attr v false) ;; reject host md (msg v)
     | Faults => reject host md (msg v)
     | Stalls => ret md
     end).
Proof. destruct rest; reflexivity. Qed.

(** The validators up to the first one that does not pass are skipped
    over without a trace in the result. *)
Lemma run_skips_passed (ahead : list validator) :
  forall first queue v rest md,
    first :: queue = (ahead ++ v :: rest)%list ->
    Forall (fun p => answer p = Resolves) ahead ->
    result_of (run queue first md) = result_of (run rest v md).
Proof.
  induction ahead as [|p ahead IH]; intros first queue v rest md Heq Hall.
  - simpl in Heq. injection Heq as -> ->. reflexivity.
  - simpl in Heq. injection Heq as -> ->.
    inversion Hall as [|? ? Hp Hrest]; subst.
    rewrite run_step, Hp, !bind_emit. cbn [result_of snd].
    destruct ahead as [|q ahead'].
    + reflexivity.
    + simpl. fold run. apply IH; [reflexivity | assumption].
Qed.

Lemma run_fault (rest : list validator) (v : validator) :
  answer v = Faults ->
  result_of (run rest v (Deferred Pending)) = Normal (Deferred (Rejected (msg v))).
Proof. intros H. rewrite run_step, H, bind_emit. reflexivity. Qed.

Lemma unknown_kind_faults (v : validator) : fn v = None -> answer v = Faults.
Proof. unfold answer, call. intros ->. reflexivity. Qed.

(** C8: when the function invoked for a descriptor raises before settling
    its result handle, or the descriptor names a kind that has no validator
    function, the chain of the attribute is settled as failed with the
    message configured on that descriptor, and the run completes without
    raising. *)
Theorem fault_rejects_with_configured_message
  (ahead : list validator) (v : validator) (rest : list validator) :
  getValidators host model attr = Normal (ahead ++ v :: rest)%list ->
  Forall (fun p => call host defaultOptions p value attr model computed = Resolves) ahead ->
  fn v = None \/ call host defaultOptions v value attr model computed = Faults ->
  result_of (validateAttr host defaultOptions model attr value computed (Deferred Pending))
  = Normal (Deferred (Rejected (msg v))).
Proof.
  intros Hget Hahead Hfault.
  assert (Hf : answer v = Faults).
  { destruct Hfault as [H|H]; [apply unknown_kind_faults; exact H | exact H]. }
  unfold validateAttr. rewrite Hget. unfold lift. rewrite bind_normal.
  cbn [result_of snd].
  destruct (ahead ++ v :: rest)%list as [|first queue] eqn:Heq.
  - destruct ahead; discriminate.
  - fold run.
    assert (Hr : result_of (run queue first (Deferred Pending))
                 = Normal (Deferred (Rejected (msg v)))).
    { rewrite (run_skips_passed ahead first queue v rest _ (eq_sym Heq) Hahead).
      apply run_fault; exact Hf. }
    rewrite (result_bind _ _ _ Hr). reflexivity.
Qed.

Lemma run_trace (rest : list validator) (v : validator) (md : handle) :
  trace (run rest v md)
  = Invoke attr v value computed
      :: match answer v with
         | Resolves =>
             Settle attr v true
               :: match rest with
                  | next :: rest' => trace (run rest' next md)
                  | [] => []
                  end
         | Rejects _ => [Settle attr v false]
         | _ => []
         end.
Proof.
  rewrite run_step, bind_emit. cbn [trace fst]. f_equal.
  destruct (answer v).
  - rewrite bind_emit. cbn [trace fst]. f_equal.
    destruct rest; [apply resolve_silent | reflexivity].
  - rewrite bind_emit. cbn [trace fst]. f_equal. apply reject_silent.
  - apply reject_silent.
  - reflexivity.
Qed.

(** The validators a chain calls: those of the queue up to and including
    the first one that does not pass. *)
Lemma run_invoked (rest : list validator) :
  forall v md,
    invoked (trace (run rest v md))
    = through_first (fun u => negb (resolves (answer u))) (v :: rest).
Proof.
  induction rest as [|next rest IH]; intros v md; rewrite run_trace;
    cbn [through_first]; destruct (answer v); cbn [resolves negb]; try reflexivity.
  cbn [invoked flat_map app]. fold (invoked (trace (run rest next md))).
  rewrite IH. reflexivity.
Qed.

(** When a validator is called, every validator called before it has
    resolved its result handle. *)
Lemma run_settled_before (rest : list validator) :
  forall v md t1 a u x c t2,
    trace (run rest v md) = (t1 ++ Invoke a u x c :: t2)%list ->
    passed t1 = invoked t1 /\ failed t1 = [].
Proof.
  induction rest as [|next rest IH]; intros v md t1 a u x c t2; rewrite run_trace; intros H.
  - destruct t1 as [|e t1]; [split; reflexivity|].
    simpl in H. injection H as _ H.
    destruct (answer v); destruct t1 as [|e' [|e'' t1]]; simpl in H; discriminate.
  - destruct t1 as [|e t1]; [split; reflexivity|].
    simpl in H. injection H as <- H.
    destruct (answer v) eqn:Hv.
    + destruct t1 as [|e' t1]; simpl in H; [discriminate|].
      injection H as <- H.
      destruct (IH next md _ _ _ _ _ _ H) as [Hp Hf].
      cbn [passed invoked failed flat_map app].
      fold (passed t1). fold (invoked t1). fold (failed t1).
      rewrite Hp, Hf. split; reflexivity.
    + destruct t1 as [|e' [|e'' t1]]; simpl in H; discriminate.
    + destruct t1 as [|e' t1]; simpl in H; discriminate.
    + destruct t1 as [|e' t1]; simpl in H; discriminate.
Qed.

Lemma validateAttr_events (md : handle) (validators : list validator) :
  getValidators host model attr = Normal validators ->
  trace (validateAttr host defaultOptions model attr value computed md)
  = match validators with
    | [] => []
    | first :: rest => trace (run rest first md)
    end.
Proof.
  intros Hget. unfold validateAttr. rewrite Hget. unfold lift.
  rewrite bind_normal. cbn [trace fst app].
  rewrite trace_bind_any.
  destruct validators as [|first rest].
  - rewrite resolve_silent. cbn [app].
    destruct (result_of _); [apply promise_silent | reflexivity].
  - fold run.
    destruct (result_of _); [rewrite promise_silent|]; apply app_nil_r.
Qed.


End ChainFacts.

(** ** Built in validators settle *)

Section Settling.

Variable host : Host.
Variable defaultOptions : jsval.

Lemma reject_message_settles (k : string) (attr model : jsval)
  (args : completion (list jsval)) :
  settle (reject_message host defaultOptions k attr model args) <> Stalls
  /\ settle (reject_message host defaultOptions k attr model args) <> Resolves.
Proof.
  unfold reject_message, cbind.
  destruct (formatLabel _ _ _ _); [destruct args|]; simpl; split; discriminate.
Qed.

(** A built in validator settles its result handle or raises; a result
    handle is left pending only by a function it was handed to. *)
Lemma call_settles (v : validator) (value attr model computed : jsval) :
  (forall g args, callee v model = Some g -> call_validator host g args <> Stalls) ->
  call host defaultOptions v value attr model computed <> Stalls.
Proof.
  intros Hcallee. unfold call. unfold callee in Hcallee.
  destruct (fn v) as [k|]; [|discriminate].
  assert (Hrej : forall kd a m args,
             settle (reject_message host defaultOptions kd a m args) <> Stalls)
    by (intros; apply reject_message_settles).
  destruct k; cbn [apply_kind].
  - unfold validator_fn, settle, cbind.
    destruct (rule_function (val v) model) as [f|]; [|discriminate].
    destruct f; try discriminate. apply Hcallee. reflexivity.
  - unfold validator_required, cbind.
    destruct (match val v with VFun f => _ | _ => _ end) as [r|];
      [|simpl; discriminate].
    destruct (negb (truthy r) && negb (hasValue value)); [simpl; discriminate|].
    destruct (truthy r && negb (hasValue value)); [apply Hrej | simpl; discriminate].
  - unfold validator_acceptance.
    destruct (_ && _); [apply Hrej | simpl; discriminate].
  - unfold validator_min.
    destruct (_ || _); [apply Hrej | simpl; discriminate].
  - unfold validator_max.
    destruct (_ || _); [apply Hrej | simpl; discriminate].
  - unfold validator_range, cbind.
    destruct (if negb (isNumber host value) then _ else _) as [[|]|];
      [apply Hrej | simpl; discriminate | simpl; discriminate].
  - unfold validator_length, cbind.
    destruct (if negb (hasValue value) then _ else _) as [[|]|];
      [apply Hrej | simpl; discriminate | simpl; discriminate].
  - unfold validator_minLength, cbind.
    destruct (if negb (hasValue value) then _ else _) as [[|]|];
      [apply Hrej | simpl; discriminate | simpl; discriminate].
  - unfold validator_maxLength, cbind.
    destruct (if negb (hasValue value) then _ else _) as [[|]|];
      [apply Hrej | simpl; discriminate | simpl; discriminate].
  - unfold validator_rangeLength, cbind.
    destruct (if negb (hasValue value) then _ else _) as [[|]|];
      [apply Hrej | simpl; discriminate | simpl; discriminate].
  - unfold validator_oneOf.
    destruct (negb _); [apply Hrej | simpl; discriminate].
  - unfold validator_equalTo, cbind.
    destruct (js_get computed _) as [other|]; [|simpl; discriminate].
    destruct (negb _); [|simpl; discriminate].
    destruct (formatLabel _ _ attr _); [|simpl; discriminate].
    destruct (formatLabel _ _ (val v) _); simpl; discriminate.
  - unfold validator_pattern. cbv zeta.
    destruct (_ || _); [apply Hrej | simpl; discriminate].
  - apply Hcallee. reflexivity.
Qed.

End Settling.

(** ** Property lists *)

Lemma lookup_set_prop_same (k : string) (v : jsval) (ps : props) :
  lookup k (set_prop k v ps) = Some v.
Proof.
  induction ps as [|[k' v'] ps IH]; simpl.
  - rewrite String.eqb_refl. reflexivity.
  - destruct (String.eqb k' k) eqn:E; simpl; rewrite E; [reflexivity | exact IH].
Qed.

Lemma lookup_set_prop_other (k k' : string) (v : jsval) (ps : props) :
  k <> k' -> lookup k' (set_prop k v ps) = lookup k' ps.
Proof.
  intros Hne. induction ps as [|[k0 v0] ps IH]; simpl.
  - destruct (String.eqb k k') eqn:E; [apply String.eqb_eq in E; contradiction | reflexivity].
  - destruct (String.eqb k0 k) eqn:E; simpl.
    + apply String.eqb_eq in E. subst k0.
      destruct (String.eqb k k') eqn:E'; [apply String.eqb_eq in E'; contradiction | reflexivity].
    + rewrite IH. reflexivity.
Qed.

Lemma set_prop_keys (k : string) (v : jsval) (ps : props) (x : string) :
  In x (map fst (set_prop k v ps)) <-> x = k \/ In x (map fst ps).
Proof.
  induction ps as [|[k' v'] ps IH]; simpl.
  - intuition.
  - destruct (String.eqb k' k) eqn:E; simpl.
    + apply String.eqb_eq in E. subst k'. intuition.
    + rewrite IH. intuition.
Qed.

Lemma set_prop_NoDup (k : string) (v : jsval) (ps : props) :
  NoDup (map fst ps) -> NoDup (map fst (set_prop k v ps)).
Proof.
  induction ps as [|[k' v'] ps IH]; simpl; intros Hnd.
  - constructor; [intros [] | constructor].
  - inversion Hnd as [|? ? Hnotin Hrest]; subst.
    destruct (String.eqb k' k) eqn:E; simpl.
    + constructor; assumption.
    + constructor; [|apply IH; assumption].
      rewrite set_prop_keys. intros [->|Hin]; [|contradiction].
      rewrite String.eqb_refl in E. discriminate.
Qed.

Lemma set_prop_not_nil (k : string) (v : jsval) (ps : props) : set_prop k v ps <> [].
Proof. destruct ps as [|[k' v'] ps]; simpl; [|destruct (String.eqb k' k)]; discriminate. Qed.

(** A stronger induction on values, through arrays and objects. *)
Section ValueInduction.

Variable P : jsval -> Prop.
Hypothesis Hundef : P VUndef.
Hypothesis Hnull : P VNull.
Hypothesis Hbool : forall b, P (VBool b).
Hypothesis Hnum : forall n, P (VNum n).
Hypothesis Hnan : P VNaN.
Hypothesis Hstr : forall s, P (VStr s).
Hypothesis Hfun : forall f, P (VFun f).
Hypothesis Harr : forall xs, Forall P xs -> P (VArr xs).
Hypothesis Hobj : forall c ps, Forall (fun kv => P (snd kv)) ps -> P (VObj c ps).

Fixpoint jsval_deep_ind (v : jsval) : P v :=
  match v with
  | VUndef => Hundef
  | VNull => Hnull
  | VBool b => Hbool b
  | VNum n => Hnum n
  | VNaN => Hnan
  | VStr s => Hstr s
  | VFun f => Hfun f
  | VArr xs =>
      Harr xs
        ((fix all (xs : list jsval) : Forall P xs :=
            match xs with
            | [] => Forall_nil _
            | x :: rest => Forall_cons x (jsval_deep_ind x) (all rest)
            end) xs)
  | VObj c ps =>
      Hobj c ps
        ((fix all (ps : props) : Forall (fun kv => P (snd kv)) ps :=
            match ps with
            | [] => Forall_nil _
            | kv :: rest =>
                Forall_cons (P := fun kv => P (snd kv)) kv
                  (jsval_deep_ind (snd kv)) (all rest)
            end) ps)
  end.

End ValueInduction.

(** ** Paths *)

Lemma append_assoc (a b c : string) : ((a ++ b) ++ c = a ++ (b ++ c))%string.
Proof. induction a as [|x a IH]; simpl; [reflexivity | rewrite IH; reflexivity]. Qed.

Lemma append_nil_r (a : string) : (a ++ "" = a)%string.
Proof. induction a as [|x a IH]; simpl; [reflexivity | rewrite IH; reflexivity]. Qed.

Lemma append_eqb_l (p a b : string) : String.eqb (p ++ a) (p ++ b) = String.eqb a b.
Proof.
  induction p as [|x p IH]; simpl; [reflexivity|].
  rewrite Ascii.eqb_refl. exact IH.
Qed.

(** [flatten] writes leaves only, and only at paths that start with its
    prefix: what every such write preserves, [flatten] preserves. *)
Lemma flatten_writes_under (P : props -> Prop) (p : string) :
  (forall rest v into, is_nested v = false -> P into -> P (set_prop (p ++ rest) v into)) ->
  forall obj into q, P into -> P (flatten obj into (p ++ q)).
Proof.
  intros Hset obj.
  induction obj using jsval_deep_ind; intros into q Hinto; try exact Hinto.
  - (* strings *)
    cbn [flatten]. generalize 0%nat. revert into Hinto.
    induction s as [|c s IH]; intros into Hinto i; [exact Hinto|].
    apply IH. rewrite append_assoc. apply Hset; [reflexivity | exact Hinto].
  - (* arrays *)
    cbn [flatten]. generalize 0%nat. revert into Hinto.
    induction H as [|x xs Hx Hxs IH]; intros into Hinto i; [exact Hinto|].
    apply IH. rewrite !append_assoc.
    destruct (is_nested x) eqn:E; [apply Hx | apply Hset]; assumption.
  - (* objects *)
    cbn [flatten]. destruct (numeric_length ps) as [length|].
    + generalize 0%nat. revert into Hinto.
      induction (Z.to_nat length) as [|count IHc]; intros into Hinto i; [exact Hinto|].
      apply IHc. clear IHc.
      induction H as [|[key val] qs Hx Hqs IH]; [exact Hinto|].
      destruct (String.eqb key (key_of_index i)); [|exact IH].
      simpl in Hx. rewrite !append_assoc.
      destruct (is_nested val) eqn:E; [apply Hx | apply Hset]; assumption.
    + revert into Hinto.
      induction H as [|[key val] qs Hx Hqs IH]; intros into Hinto; [exact Hinto|].
      apply IH. simpl in Hx. rewrite !append_assoc.
      destruct (is_nested val) eqn:E; [apply Hx | apply Hset]; assumption.
Qed.

Lemma flatten_invariant (P : props -> Prop) :
  (forall k v into, is_nested v = false -> P into -> P (set_prop k v into)) ->
  forall obj into prefix, P into -> P (flatten obj into prefix).
Proof.
  intros Hset obj into prefix.
  apply (flatten_writes_under P "" (fun rest => Hset rest) obj into prefix).
Qed.

(** [flatten] never writes a path twice. *)
Lemma flatten_NoDup (obj : jsval) :
  forall into prefix,
    NoDup (map fst into) -> NoDup (map fst (flatten obj into prefix)).
Proof.
  apply (flatten_invariant (fun into => NoDup (map fst into))).
  intros k v into _. apply set_prop_NoDup.
Qed.

(** ** The outcome of a chain *)

Section ChainOutcome.

Variable host : Host.
Variables defaultOptions model attr value computed : jsval.

Let answer (v : validator) : behaviour :=
  call host defaultOptions v value attr model computed.

Let verdict_of (vs : list validator) : outcome unit :=
  match find (fun u => negb (resolves (answer u))) vs with
  | None => Resolved tt
  | Some u => match answer u with
              | Stalls => Pending
              | _ => Rejected (msg u)
              end
  end.

Lemma run_outcome (rest : list validator) :
  forall v,
    result_of (invokeValidator host defaultOptions model attr value computed rest v
                 (Deferred Pending))
    = Normal (Deferred (verdict_of (v :: rest))).
Proof.
  induction rest as [|next rest IH]; intros v;
    rewrite run_step, bind_emit; cbn [result_of snd];
    unfold verdict_of; cbn [find]; fold (answer v);
    destruct (answer v) eqn:E; cbn [resolves negb];
    try rewrite E; try (rewrite bind_emit; cbn [result_of snd]); try reflexivity.
  rewrite IH. reflexivity.
Qed.

Lemma validateAttr_outcome (validators : list validator) :
  getValidators host model attr = Normal validators ->
  result_of (validateAttr host defaultOptions model attr value computed (Deferred Pending))
  = Normal (Deferred (verdict_of validators)).
Proof.
  intros Hget. unfold validateAttr. rewrite Hget. unfold lift. rewrite bind_normal.
  cbn [result_of snd].
  destruct validators as [|first rest]; [reflexivity|].
  rewrite (result_bind _ _ _ (run_outcome rest first)). reflexivity.
Qed.


End ChainOutcome.


(** ** The chain of an entity *)

Section ModelFacts.

Variable host : Host.
Variables defaultOptions model computed : jsval.

Let chain (p : string * jsval) : completion handle :=
  result_of (validateAttr host defaultOptions model (VStr (fst p)) (snd p) computed
               (Deferred Pending)).

Let record (acc : props) (p : string * jsval) : props :=
  match chain p with
  | Normal (Deferred (Rejected e)) => set_prop (fst p) e acc
  | _ => acc
  end.

Let passes (p : string * jsval) : bool :=
  match chain p with
  | Normal (Deferred (Rejected _)) => false
  | _ => true
  end.

Lemma validateAttr_trace (attr value : jsval) (md : handle) :
  trace (validateAttr host defaultOptions model attr value computed md)
  = match getValidators host model attr with
    | Normal (first :: rest) =>
        trace (invokeValidator host defaultOptions model attr value computed rest first md)
    | _ => []
    end.
Proof.
  unfold validateAttr, lift. destruct (getValidators host model attr) as [vs|];
    [|reflexivity].
  rewrite bind_normal. cbn [trace fst app]. rewrite trace_bind_any.
  destruct vs as [|first rest].
  - rewrite resolve_silent. cbn [app].
    destruct (result_of _); [apply promise_silent | reflexivity].
  - destruct (result_of _); [rewrite promise_silent|]; apply app_nil_r.
Qed.

Lemma run_visits_nothing (attr value : jsval) (rest : list validator) :
  forall v md,
    visited (trace (invokeValidator host defaultOptions model attr value computed
                      rest v md)) = [].
Proof.
  induction rest as [|next rest IH]; intros v md; rewrite run_trace;
    destruct (call _ _ _ _ _ _ _); try reflexivity.
  cbn [visited flat_map app]. apply IH.
Qed.

Lemma validateAttr_visits_nothing (attr value : jsval) (md : handle) :
  visited (trace (validateAttr host defaultOptions model attr value computed md)) = [].
Proof.
  rewrite validateAttr_trace.
  destruct (getValidators host model attr) as [[|first rest]|]; try reflexivity.
  apply run_visits_nothing.
Qed.

(** A chain none of whose descriptors hands its result handle to a function
    that keeps it pending settles. *)
Lemma chain_settles (attr value : jsval) (validators : list validator) :
  getValidators host model attr = Normal validators ->
  (forall d g args,
      In d validators -> callee d model = Some g -> call_validator host g args <> Stalls) ->
  exists st,
    result_of (validateAttr host defaultOptions model attr value computed
                 (Deferred Pending)) = Normal (Deferred st)
    /\ st <> Pending.
Proof.
  intros Hget Hcallee.
  rewrite (validateAttr_outcome host defaultOptions model attr value computed _ Hget).
  eexists. split; [reflexivity|].
  destruct (find _ validators) as [u|] eqn:Hfind; [|discriminate].
  apply find_some in Hfind. destruct Hfind as [Hin _].
  pose proof (call_settles host defaultOptions u value attr model computed
                (fun g args => Hcallee u g args Hin)) as Hu.
  destruct (call _ _ _ _ _ _ _); try discriminate. contradiction.
Qed.

Lemma invokeModel_step (pairs : list (string * jsval)) (pair : string * jsval)
  (acc : props) (valid : bool) :
  invokeModel host defaultOptions model computed pairs pair acc valid
  = (emit (Visit (fst pair) (snd pair)) ;;
     result <- validateAttr host defaultOptions model (VStr (fst pair)) (snd pair)
                computed (Deferred Pending) ;;
     match result with
     | Deferred (Resolved _) =>
         match pairs with
         | nextPair :: rest =>
             invokeModel host defaultOptions model computed rest nextPair acc valid
         | [] => ret (Resolved {| invalidAttrs := acc; isValid := valid |})
         end
     | Deferred (Rejected errorMessage) =>
         match pairs with
         | nextPair :: rest =>
             invokeModel host defaultOptions model computed rest nextPair
               (set_prop (fst pair) errorMessage acc) false
         | [] => ret (Resolved {| invalidAttrs := set_prop (fst pair) errorMessage acc;
                                  isValid := false |})
         end
     | _ => ret Pending
     end).
Proof. destruct pairs; reflexivity. Qed.

(** Every pair of the queue is visited, whatever the earlier ones did, and
    the verdict records the attributes whose chain was rejected. *)
Lemma invokeModel_spec (pairs : list (string * jsval)) :
  forall pair acc valid,
    (forall p, In p (pair :: pairs) ->
               exists st, chain p = Normal (Deferred st) /\ st <> Pending) ->
    result_of (invokeModel host defaultOptions model computed pairs pair acc valid)
    = Normal (Resolved {| invalidAttrs := fold_left record (pair :: pairs) acc;
                          isValid := valid && forallb passes (pair :: pairs) |})
    /\ visited (trace (invokeModel host defaultOptions model computed pairs pair acc valid))
       = pair :: pairs.
Proof.
  induction pairs as [|next pairs IH]; intros pair acc valid Hall;
    destruct (Hall pair (or_introl eq_refl)) as (st & Hst & Hne);
    assert (Hrec : record acc pair
                   = match st with Rejected e => set_prop (fst pair) e acc | _ => acc end)
      by (unfold record; rewrite Hst; reflexivity);
    assert (Hpass : passes pair = match st with Rejected _ => false | _ => true end)
      by (unfold passes; rewrite Hst; reflexivity);
    unfold chain in Hst;
    rewrite invokeModel_step, bind_emit; cbn [result_of trace fst snd];
    rewrite (result_bind _ _ _ Hst), (trace_bind _ _ _ Hst);
    cbn [visited flat_map app]; rewrite flat_map_app;
    fold (visited (trace (validateAttr host defaultOptions model (VStr (fst pair))
                            (snd pair) computed (Deferred Pending))));
    rewrite validateAttr_visits_nothing; cbn [app];
    cbn [fold_left forallb]; rewrite Hrec, Hpass;
    destruct st as [|[]|e]; try contradiction.
  - split; [|destruct pair; reflexivity].
    cbn [result_of ret snd]. rewrite !andb_true_r. reflexivity.
  - split; [|destruct pair; reflexivity].
    cbn [result_of ret snd]. rewrite andb_false_r. reflexivity.
  - destruct (IH next acc valid (fun p Hp => Hall p (or_intror Hp))) as [Hr Hv].
    split.
    + rewrite Hr. rewrite andb_true_l. reflexivity.
    + fold (visited (trace (invokeModel host defaultOptions model computed pairs next
                              acc valid))).
      rewrite Hv. destruct pair; reflexivity.
  - destruct (IH next (set_prop (fst pair) e acc) false
                (fun p Hp => Hall p (or_intror Hp))) as [Hr Hv].
    split.
    + rewrite Hr. rewrite andb_false_r. reflexivity.
    + fold (visited (trace (invokeModel host defaultOptions model computed pairs next
                              (set_prop (fst pair) e acc) false))).
      rewrite Hv. destruct pair; reflexivity.
Qed.

Lemma record_lookup (acc : props) (p : string * jsval) (k : string) (e : jsval) :
  lookup (fst p) acc = None ->
  (lookup k (record acc p) = Some e
   <-> (k = fst p /\ chain p = Normal (Deferred (Rejected e)))
       \/ lookup k acc = Some e).
Proof.
  intros Hfresh. unfold record.
  destruct (chain p) as [[[| |e0]|]|] eqn:Hc;
    try (split; [intros H; right; exact H
                | intros [[_ H]|H]; [discriminate | exact H]]).
  destruct (string_dec (fst p) k) as [<-|Hne].
  - rewrite lookup_set_prop_same. split.
    + intros [= ->]. left. split; reflexivity.
    + intros [[_ [= ->]]|H]; [reflexivity | congruence].
  - rewrite lookup_set_prop_other by exact Hne. split.
    + intros H; right; exact H.
    + intros [[-> _]|H]; [contradiction | exact H].
Qed.

Lemma record_fresh (acc : props) (p : string * jsval) (k : string) :
  k <> fst p -> lookup k acc = None -> lookup k (record acc p) = None.
Proof.
  intros Hne Hk. unfold record.
  destruct (chain p) as [[[| |e0]|]|]; try exact Hk.
  rewrite lookup_set_prop_other by congruence. exact Hk.
Qed.

Lemma fold_record_lookup (ps : list (string * jsval)) :
  forall acc,
    NoDup (map fst ps) ->
    (forall k, In k (map fst ps) -> lookup k acc = None) ->
    forall k e,
      lookup k (fold_left record ps acc) = Some e
      <-> (exists v, In (k, v) ps /\ chain (k, v) = Normal (Deferred (Rejected e)))
          \/ lookup k acc = Some e.
Proof.
  induction ps as [|[k0 v0] ps IH]; intros acc Hnd Hfresh k e; cbn [fold_left].
  - split; [intros H; right; exact H | intros [[v [[] _]]|H]; exact H].
  - cbn [map fst] in Hnd, Hfresh. inversion Hnd as [|? ? Hnotin Hrest]; subst.
    rewrite IH; [|exact Hrest|].
    + rewrite record_lookup by (apply Hfresh; left; reflexivity). cbn [fst]. split.
      * intros [(v & Hin & Hc)|[[-> Hc]|H]].
        -- left. exists v. split; [right; exact Hin | exact Hc].
        -- left. exists v0. split; [left; reflexivity | exact Hc].
        -- right. exact H.
      * intros [(v & [[= <- <-]|Hin] & Hc)|H].
        -- right. left. split; [reflexivity | exact Hc].
        -- left. exists v. split; assumption.
        -- right. right. exact H.
    + intros k' Hk'. apply record_fresh.
      * cbn [fst]. intros ->. contradiction.
      * apply Hfresh. right. exact Hk'.
Qed.

Lemma fold_record_nil (ps : list (string * jsval)) :
  forall acc,
    fold_left record ps acc = [] <-> acc = [] /\ forallb passes ps = true.
Proof.
  induction ps as [|p ps IH]; intros acc; cbn [fold_left forallb].
  - intuition.
  - rewrite IH. unfold record, passes.
    destruct (chain p) as [[[| |e0]|]|]; cbn [andb]; try tauto.
    split; [intros [H _]; exfalso; exact (set_prop_not_nil _ _ _ H)
           | intros [_ H]; discriminate].
Qed.

(** The verdict of a queue whose chains all settle. *)
Lemma invokeModel_verdict (pairs : list (string * jsval)) (pair : string * jsval) :
  NoDup (map fst (pair :: pairs)) ->
  (forall p, In p (pair :: pairs) ->
             exists st,
               result_of (validateAttr host defaultOptions model (VStr (fst p)) (snd p)
                            computed (Deferred Pending)) = Normal (Deferred st)
               /\ st <> Pending) ->
  exists verdict,
    result_of (invokeModel host defaultOptions model computed pairs pair [] true)
    = Normal (Resolved verdict)
    /\ visited (trace (invokeModel host defaultOptions model computed pairs pair [] true))
       = pair :: pairs
    /\ (forall k e,
           lookup k (invalidAttrs verdict) = Some e
           <-> exists v,
               In (k, v) (pair :: pairs)
               /\ result_of (validateAttr host defaultOptions model (VStr k) v computed
                               (Deferred Pending)) = Normal (Deferred (Rejected e)))
    /\ (isValid verdict = true <-> invalidAttrs verdict = []).
Proof.
  intros Hnd Hall.
  destruct (invokeModel_spec pairs pair [] true Hall) as [Hr Hv].
  eexists. split; [exact Hr|]. split; [exact Hv|]. cbn [invalidAttrs isValid]. split.
  - intros k e. rewrite fold_record_lookup; [|exact Hnd|reflexivity].
    cbn [lookup]. split.
    + intros [H|H]; [exact H | discriminate].
    + intros H; left; exact H.
  - rewrite fold_record_nil. cbn [andb]. tauto.
Qed.

End ModelFacts.




(** ** The scenarios of the specification, run on the code *)

(** C1 on the code: with [{ required: false, pattern: 'email' }] and the
    value [''], the [required] descriptor passes, the [pattern] descriptor is
    invoked all the same, and the chain is rejected. *)
Theorem required_false_does_not_skip_pattern (host : Host) (defaultOptions : jsval) :
  validator_required host defaultOptions (VStr "") (VStr "email") (VBool false)
    emailEntity (VObj Plain [("email", VStr "")]) = Resolves
  /\ invoked (trace (mixin_preValidate host defaultOptions emailEntity (VStr "email")
                       (VStr "")))
     = [ {| fn := Some Krequired; val := VBool false; msg := VUndef |};
         {| fn := Some Kpattern; val := VStr "email"; msg := VUndef |} ]
  /\ result_of (mixin_preValidate host defaultOptions emailEntity (VStr "email") (VStr ""))
     = Normal (Deferred (Rejected VUndef)).
Proof.
  split; [reflexivity|].
  unfold mixin_preValidate, emailEntity, entity. cbn [js_get lookup String.eqb Ascii.eqb].
  unfold lift. rewrite bind_normal. cbn [trace result_of fst snd app].
  unfold validateAttr, getValidators.
  cbv - [invokeValidator bind lift resolve promise trace result_of invoked].
  unfold lift. rewrite bind_normal. cbn [trace result_of fst snd app].
  cbn [invokeValidator].
  assert (Hreq : call host defaultOptions
                   {| fn := Some Krequired; val := VBool false; msg := VUndef |}
                   (VStr "") (VStr "email")
                   (VObj ModelObj
                      [("attributes", VObj Plain [("email", VStr "")]);
                       ("validation",
                        VObj Plain
                          [("email",
                            VObj Plain [("required", VBool false); ("pattern", VStr "email")])])])
                   (VObj Plain [("email", VStr "")]) = Resolves) by reflexivity.
  rewrite Hreq.
  assert (Hpat : exists r,
             call host defaultOptions
               {| fn := Some Kpattern; val := VStr "email"; msg := VUndef |}
               (VStr "") (VStr "email")
               (VObj ModelObj
                  [("attributes", VObj Plain [("email", VStr "")]);
                   ("validation",
                    VObj Plain
                      [("email",
                        VObj Plain [("required", VBool false); ("pattern", VStr "email")])])])
               (VObj Plain [("email", VStr "")]) = r
             /\ (r = Faults \/ exists m, r = Rejects m)).
  { eexists. split; [reflexivity|].
    cbn [call fn val apply_kind]. unfold validator_pattern, reject_message, cbind.
    cbn [hasValue isNull isUndefined trim_string trim_left trim_right String.eqb negb orb].
    destruct (formatLabel _ _ _ _); [right; eexists; reflexivity | left; reflexivity]. }
  destruct Hpat as (r & -> & [->|[m ->]]); split; reflexivity.
Qed.

(** C2 on the code: with [{ age: { required: true, min: 18 } }] and
    [age: 15], the [min] validator rejects its result handle with the
    parametrized default message, but the chain rejects the master with
    [validator.msg], which is [undefined] here: the run settles with
    [invalidAttrs = { age: undefined }] and [isValid = false]. *)
Theorem default_message_is_dropped (host : Host) (view : jsval) :
  validator_min host shippedOptions (VNum 15) (VStr "age") (VNum 18) ageEntity
  = Rejects (VStr "Age must be greater than or equal to 18")
  /\ result_of (validateModel host shippedOptions ageEntity (VObj Plain [("age", VNum 15)]))
     = Normal (Resolved {| invalidAttrs := [("age", VUndef)]; isValid := false |})
  /\ In (CallInvalid view (VStr "age") VUndef (VStr "name"))
       (trace (mixin_validate host shippedOptions view shippedOptions ageEntity
                 VUndef VUndef)).
Proof.
  split; [reflexivity|]. split; [reflexivity|].
  vm_compute. right. right. right. right. right. left. reflexivity.
Qed.

(** A custom message, when there is one, is what the map records. *)
Example custom_message_is_recorded (host : Host) :
  result_of (validateModel host shippedOptions
               (entity [("age", VObj Plain [("min", VNum 18); ("msg", VStr "Too young")])]
                       [("age", VNum 15)])
               (VObj Plain [("age", VNum 15)]))
  = Normal (Resolved {| invalidAttrs := [("age", VStr "Too young")]; isValid := false |}).
Proof. reflexivity. Qed.

(** C5 on the code: with [forceUpdate: true] and a required attribute that
    is missing, [validate()] calls the invalid callback for the attribute and
    then rejects the promise it returned. *)
Theorem forced_update_still_rejects (host : Host) (view : jsval) :
  In (CallInvalid view (VStr "name") VUndef (VStr "name"))
    (trace (mixin_validate host shippedOptions view forcedOptions namelessEntity
              VUndef VUndef))
  /\ result_of (mixin_validate host shippedOptions view forcedOptions namelessEntity
                  VUndef VUndef)
     = Normal (js_set namelessEntity "_isValid" (VBool false), Rejected VUndef)
  /\ result_of (mixin_validate host shippedOptions view shippedOptions namelessEntity
                  VUndef (VObj Plain [("forceUpdate", VBool true)]))
     = Normal (js_set namelessEntity "_isValid" (VBool false), Rejected VUndef).
Proof.
  split; [|split; reflexivity].
  vm_compute. right. right. right. left. reflexivity.
Qed.

(** Without [forceUpdate] the handler returns before it settles the promise. *)
Example unforced_update_stays_pending (host : Host) (view : jsval) :
  result_of (mixin_validate host shippedOptions view shippedOptions namelessEntity
               VUndef VUndef)
  = Normal (js_set namelessEntity "_isValid" (VBool false), Pending).
Proof. reflexivity. Qed.

(** C6 on the code: [isValid] with an attribute path, or with a list of
    paths, raises: [validateAttr] takes the model for the master Deferred and
    calls [resolve] on it. *)
Theorem isValid_of_a_path_raises (host : Host) (defaultOptions view options : jsval) :
  result_of (mixin_isValid host defaultOptions view options ageEntity (VStr "age")) = Throw
  /\ result_of (mixin_isValid host defaultOptions view options ageEntity
                  (VArr [VStr "age"])) = Throw.
Proof. split; reflexivity. Qed.

(** [isValid] with a path raises on every entity that has no method named
    [resolve]. *)
Lemma index_is_not_validation (i : nat) : String.eqb (key_of_index i) "validation" = false.
Proof. unfold key_of_index. destruct (Nat.to_uint i); reflexivity. Qed.

Lemma string_has_no_validation (s : string) : js_get (VStr s) "validation" = Normal VUndef.
Proof.
  cbn [js_get]. replace (String.eqb "validation" "length") with false by reflexivity.
  f_equal. generalize 0%nat. induction s as [|c s IH]; intros i; cbn [str_get_from].
  - reflexivity.
  - rewrite index_is_not_validation. apply IH.
Qed.

Lemma isValid_of_any_path_raises
  (host : Host) (defaultOptions view options this attributes method : jsval) (path : string) :
  js_get this "attributes" = Normal attributes ->
  js_get this "resolve" = Normal method ->
  isFunction method = false ->
  result_of (mixin_isValid host defaultOptions view options this (VStr path)) = Throw.
Proof.
  intros Hattrs Hmethod Hnot.
  unfold mixin_isValid. rewrite Hattrs. unfold lift. rewrite bind_normal.
  cbn [isString result_of snd trace fst app].
  unfold validateAttr, getValidators. rewrite string_has_no_validation.
  cbn [cbind truthy isFunction isString orb fold_right js_keys map keys own_props without
         filter app].
  unfold lift. rewrite bind_normal. cbn [result_of snd trace fst app].
  unfold resolve, call_method. rewrite Hmethod. unfold lift.
  rewrite !bind_normal. cbn [result_of snd trace fst app].
  destruct method; try discriminate; reflexivity.
Qed.

(** ** The computed context *)

Lemma set_prop_absent (k : string) (v : jsval) (ps : props) :
  ~ In k (map fst ps) -> set_prop k v ps = (ps ++ [(k, v)])%list.
Proof.
  induction ps as [|[k' v'] ps IH]; simpl; intros Hnotin; [reflexivity|].
  destruct (String.eqb k' k) eqn:E.
  - apply String.eqb_eq in E. subst. exfalso. apply Hnotin. left; reflexivity.
  - rewrite IH; [reflexivity | intuition].
Qed.

Lemma writes_NoDup (ps : props) :
  forall into, NoDup (map fst into) -> NoDup (map fst (fold_left write ps into)).
Proof.
  induction ps as [|[k v] ps IH]; intros into Hnd; [exact Hnd|].
  apply IH. apply set_prop_NoDup. exact Hnd.
Qed.

Lemma writes_rebuild (ps : props) :
  forall into,
    NoDup (map fst (into ++ ps)) -> fold_left write ps into = (into ++ ps)%list.
Proof.
  induction ps as [|[k v] ps IH]; intros into Hnd; cbn [fold_left].
  - rewrite app_nil_r. reflexivity.
  - unfold write at 2. cbn [fst snd].
    rewrite set_prop_absent.
    + rewrite IH; rewrite <- app_assoc; [reflexivity | exact Hnd].
    + rewrite map_app in Hnd. cbn [map fst] in Hnd.
      apply NoDup_remove_2 in Hnd. intros Hin. apply Hnd.
      apply in_or_app. left; exact Hin.
Qed.

Lemma writes_keep (ps : props) (k : string) :
  forall into, ~ In k (map fst ps) -> lookup k (fold_left write ps into) = lookup k into.
Proof.
  induction ps as [|[k' v'] ps IH]; intros into Hnotin; [reflexivity|].
  simpl in Hnotin.
  assert (Hk : k' <> k) by (intros ->; apply Hnotin; left; reflexivity).
  assert (Hps : ~ In k (map fst ps)) by (intros H; apply Hnotin; right; exact H).
  cbn [fold_left]. rewrite (IH _ Hps).
  unfold write. cbn [fst snd]. apply lookup_set_prop_other. exact Hk.
Qed.

Lemma writes_last (ps : props) (k : string) (x : jsval) :
  forall into,
    NoDup (map fst ps) -> In (k, x) ps -> lookup k (fold_left write ps into) = Some x.
Proof.
  induction ps as [|[k' v'] ps IH]; intros into Hnd Hin; [destruct Hin|].
  cbn [map fst] in Hnd. inversion Hnd as [|? ? Hnotin Hrest]; subst.
  cbn [fold_left]. destruct Hin as [[= -> ->]|Hin].
  - rewrite writes_keep by exact Hnotin. apply lookup_set_prop_same.
  - apply IH; assumption.
Qed.

Lemma extend_NoDup (sources : list jsval) :
  forall into,
    NoDup (map fst into) -> NoDup (map fst (fold_left extend_props sources into)).
Proof.
  induction sources as [|src sources IH]; intros into Hnd; [exact Hnd|].
  apply IH. apply writes_NoDup. exact Hnd.
Qed.

(** [_.clone] of what [_.extend] built is the same object, property by
    property. *)
Lemma clone_extend (sources : list jsval) : clone (extend sources) = extend sources.
Proof.
  unfold clone, extend at 1. unfold extend at 1. cbn [fold_left own_props extend_props].
  unfold extend. f_equal. apply (writes_rebuild _ []).
  apply extend_NoDup. constructor.
Qed.

(** The proposed changes are the last source of the merge. *)
Lemma extend_last (first second attrs : jsval) (k : string) (x : jsval) :
  NoDup (keys attrs) ->
  In (k, x) (own_props attrs) ->
  field (extend [first; second; attrs]) k = x.
Proof.
  intros Hnd Hin. unfold field, extend. cbn [fold_left own_props].
  unfold extend_props at 1.
  rewrite (writes_last _ k x _ Hnd Hin). reflexivity.
Qed.

(** ** Running [validate] again *)

Lemma set_prop_twice (k : string) (x v : jsval) (ps : props) :
  set_prop k v (set_prop k x ps) = set_prop k v ps.
Proof.
  induction ps as [|[k' v'] ps IH]; simpl.
  - rewrite String.eqb_refl. reflexivity.
  - destruct (String.eqb k' k) eqn:E; simpl; rewrite E; [reflexivity|].
    rewrite IH. reflexivity.
Qed.

Lemma js_set_twice (m : jsval) (k : string) (x v : jsval) :
  js_set (js_set m k x) k v = js_set m k v.
Proof. destruct m; try reflexivity. simpl. rewrite set_prop_twice. reflexivity. Qed.

Lemma js_get_set_other (m : jsval) (k k' : string) (x : jsval) :
  k <> k' -> js_get (js_set m k x) k' = js_get m k'.
Proof.
  intros Hne. destruct m; try reflexivity. simpl.
  rewrite lookup_set_prop_other by exact Hne. reflexivity.
Qed.

Section Blind.

Variable host : Host.
Variable defaultOptions : jsval.
Hypothesis Hhost : blind_to "_isValid" host.

Variables this x : jsval.
Hypothesis Hfield : isFunction (field this "_isValid") = false.
Hypothesis Hx : isFunction x = false.

Let flagged : jsval := js_set this "_isValid" x.

Lemma formatLabel_blind (attr : jsval) :
  formatLabel host defaultOptions attr flagged = formatLabel host defaultOptions attr this.
Proof.
  destruct Hhost as (_ & _ & Hf).
  unfold formatLabel, defaultLabelFormatters, label, flagged.
  rewrite js_get_set_other by discriminate.
  destruct (js_get defaultOptions "labelFormatter") as [name|]; [|reflexivity].
  cbn [cbind]. destruct (inherited _) as [[]|]; try reflexivity.
  rewrite Hf. reflexivity.
Qed.

Lemma reject_message_blind (kd : string) (attr : jsval) (args : completion (list jsval)) :
  reject_message host defaultOptions kd attr flagged args
  = reject_message host defaultOptions kd attr this args.
Proof. unfold reject_message. rewrite formatLabel_blind. reflexivity. Qed.

Lemma fn_blind (value attr param computed : jsval) :
  validator_fn host value attr param flagged computed
  = validator_fn host value attr param this computed.
Proof.
  destruct Hhost as [Hv _]. unfold validator_fn, rule_function, flagged.
  destruct param; cbn [cbind]; try reflexivity.
  - destruct (string_dec "_isValid" s) as [<-|Hne].
    + destruct this; try reflexivity.
      cbn [js_set js_get]. rewrite lookup_set_prop_same.
      unfold field in Hfield. cbn [own_props] in Hfield.
      unfold or_inherited. cbn [cbind]. destruct x; try discriminate;
        destruct (lookup "_isValid" fields) as [[]|]; try discriminate; reflexivity.
    + rewrite js_get_set_other by exact Hne.
      destruct (js_get this s) as [[]|]; cbn [cbind]; try reflexivity.
      rewrite Hv. reflexivity.
  - rewrite Hv. reflexivity.
Qed.

Lemma apply_kind_blind (k : kind) (value attr param computed : jsval) :
  apply_kind host defaultOptions k value attr param flagged computed
  = apply_kind host defaultOptions k value attr param this computed.
Proof.
  destruct k; cbn [apply_kind].
  - apply fn_blind.
  - unfold validator_required. rewrite reject_message_blind.
    destruct param; try reflexivity.
    destruct Hhost as (_ & Hf & _). unfold flagged. rewrite Hf. reflexivity.
  - unfold validator_acceptance. rewrite reject_message_blind. reflexivity.
  - unfold validator_min. rewrite reject_message_blind. reflexivity.
  - unfold validator_max. rewrite reject_message_blind. reflexivity.
  - unfold validator_range. rewrite reject_message_blind. reflexivity.
  - unfold validator_length. rewrite reject_message_blind. reflexivity.
  - unfold validator_minLength. rewrite reject_message_blind. reflexivity.
  - unfold validator_maxLength. rewrite reject_message_blind. reflexivity.
  - unfold validator_rangeLength. rewrite reject_message_blind. reflexivity.
  - unfold validator_oneOf. rewrite reject_message_blind. reflexivity.
  - unfold validator_equalTo. rewrite !formatLabel_blind. reflexivity.
  - unfold validator_pattern. rewrite reject_message_blind. reflexivity.
  - destruct Hhost as [Hv _]. unfold flagged. apply Hv.
Qed.

Lemma call_blind (v : validator) (value attr computed : jsval) :
  call host defaultOptions v value attr flagged computed
  = call host defaultOptions v value attr this computed.
Proof. unfold call. destruct (fn v); [apply apply_kind_blind | reflexivity]. Qed.

Lemma run_blind (attr value computed : jsval) (rest : list validator) :
  forall v md,
    invokeValidator host defaultOptions flagged attr value computed rest v md
    = invokeValidator host defaultOptions this attr value computed rest v md.
Proof.
  induction rest as [|next rest IH]; intros v md;
    rewrite (run_step _ _ flagged _ _ _ _ v), (run_step _ _ this _ _ _ _ v), call_blind;
    [reflexivity|].
  apply bind_ext. intros _. destruct (call _ _ _ _ _ _ _); try reflexivity.
  apply bind_ext. intros _. apply IH.
Qed.

Lemma getValidators_blind (attr : jsval) :
  getValidators host flagged attr = getValidators host this attr.
Proof.
  unfold getValidators, flagged. rewrite js_get_set_other by discriminate. reflexivity.
Qed.

Lemma validateAttr_blind (attr value computed : jsval) (md : handle) :
  validateAttr host defaultOptions flagged attr value computed md
  = validateAttr host defaultOptions this attr value computed md.
Proof.
  unfold validateAttr. rewrite getValidators_blind.
  destruct (getValidators host this attr) as [[|first rest]|]; try reflexivity.
  unfold lift. rewrite !bind_normal. cbn [trace result_of fst snd app].
  rewrite run_blind. reflexivity.
Qed.

Lemma invokeModel_blind (computed : jsval) (pairs : list (string * jsval)) :
  forall pair acc valid,
    invokeModel host defaultOptions flagged computed pairs pair acc valid
    = invokeModel host defaultOptions this computed pairs pair acc valid.
Proof.
  induction pairs as [|next pairs IH]; intros pair acc valid;
    rewrite (invokeModel_step _ _ flagged _ _ pair), (invokeModel_step _ _ this _ _ pair),
      validateAttr_blind; [reflexivity|].
  apply bind_ext. intros _. apply bind_ext. intros result.
  destruct result as [[| |e]|]; try reflexivity; apply IH.
Qed.

Lemma validateModel_blind (attrs : jsval) :
  validateModel host defaultOptions flagged attrs
  = validateModel host defaultOptions this attrs.
Proof.
  unfold validateModel. destruct (pairs_of _); [reflexivity|].
  rewrite invokeModel_blind. reflexivity.
Qed.

End Blind.

Lemma each_returns {A : Type} (f : A -> Run unit) (l : list A) :
  (forall x, result_of (f x) = Normal tt) -> result_of (each f l) = Normal tt.
Proof.
  intros Hf. induction l as [|x l IH]; [reflexivity|].
  cbn [each]. rewrite (result_bind _ _ _ (Hf x)). exact IH.
Qed.

Lemma getValidatedAttrs_blind (this x : jsval) :
  getValidatedAttrs (js_set this "_isValid" x) = getValidatedAttrs this.
Proof. unfold getValidatedAttrs. rewrite js_get_set_other by discriminate. reflexivity. Qed.

(** A run that settled leaves the verdict's flag on the model, and running
    on the flagged model is running on the model. *)
Lemma validate_flags_the_model
  (host : Host) (defaultOptions view options this attrs setOptions : jsval)
  (l : list event) (this1 : jsval) (o : outcome unit) :
  mixin_validate host defaultOptions view options this attrs setOptions
  = (l, Normal (this1, o)) ->
  this1 = this \/ exists b, this1 = js_set this "_isValid" (VBool b).
Proof.
  unfold mixin_validate, lift.
  destruct (getValidatedAttrs this) as [validated|]; [|discriminate].
  destruct (js_get this "attributes") as [attributes|]; [|discriminate].
  rewrite !bind_normal. cbn [trace result_of fst snd app].
  destruct (validateModel _ _ _ _) as [l0 [[|r|e]|]].
  - rewrite bind_normal. intros [= _ <- _]. left; reflexivity.
  - rewrite bind_normal. cbn [fst snd].
    rewrite (result_bind _ _ tt);
      [|apply each_returns; intros a; destruct (negb _); reflexivity].
    rewrite (result_bind _ _ tt);
      [|apply each_returns; intros a; destruct (_ && _); reflexivity].
    rewrite !bind_emit. cbn [result_of snd].
    intros [= _ H]. right. exists (isValid r).
    destruct (_ && _); [|destruct (truthy _)]; injection H as <- _; reflexivity.
  - rewrite bind_normal. intros [= _ <- _]. left; reflexivity.
  - rewrite bind_throw. discriminate.
Qed.

Lemma validate_blind
  (host : Host) (defaultOptions view options this attrs setOptions : jsval) (b : bool)
  (l : list event) (o : outcome unit) :
  blind_to "_isValid" host ->
  isFunction (field this "_isValid") = false ->
  mixin_validate host defaultOptions view options this attrs setOptions
  = (l, Normal (js_set this "_isValid" (VBool b), o)) ->
  mixin_validate host defaultOptions view options (js_set this "_isValid" (VBool b))
    attrs setOptions
  = (l, Normal (js_set this "_isValid" (VBool b), o)).
Proof.
  intros Hhost Hfield. unfold mixin_validate, lift.
  rewrite getValidatedAttrs_blind, js_get_set_other by discriminate.
  destruct (getValidatedAttrs this) as [validated|]; [|discriminate].
  destruct (js_get this "attributes") as [attributes|]; [|discriminate].
  rewrite !bind_normal. cbn [trace result_of fst snd app].
  rewrite (validateModel_blind host defaultOptions Hhost this (VBool b) Hfield eq_refl).
  destruct (validateModel _ _ _ _) as [l0 [[|r|e]|]].
  - rewrite !bind_normal. intros [= <- _ <-]. reflexivity.
  - rewrite !bind_normal. rewrite js_set_twice. intros H. exact H.
  - rewrite !bind_normal. intros [= <- _ <-]. reflexivity.
  - rewrite !bind_throw. discriminate.
Qed.


(** ** Instances *)

Lemma fault_rejects_with_configured_message_witness :
  result_of (validateAttr bareHost shippedOptions nickEntity (VStr "nick") (VStr "x")
               (VObj Plain [("nick", VStr "x")]) (Deferred Pending))
  = Normal (Deferred (Rejected (VStr "bad nick"))).
Proof.
  apply (fault_rejects_with_configured_message bareHost shippedOptions nickEntity
           (VStr "nick") (VStr "x") (VObj Plain [("nick", VStr "x")])
           [ {| fn := Some Krequired; val := VBool true; msg := VStr "bad nick" |} ]
           {| fn := None; val := VNum 1; msg := VStr "bad nick" |}
           []).
  - reflexivity.
  - constructor; [reflexivity | constructor].
  - left. reflexivity.
Defined.




(** The scenario of C7: stored values that differ do not matter when both
    attributes are proposed together. *)
Example proposed_passwords_pass (host : Host) (view stored_password stored_confirm : jsval) :
  result_of (mixin_validate host shippedOptions view shippedOptions
               (passwordEntity stored_password stored_confirm)
               (VObj Plain [("password", VStr "a"); ("confirm", VStr "a")]) VUndef)
  = Normal (js_set (passwordEntity stored_password stored_confirm) "_isValid" (VBool true),
            Resolved tt).
Proof. reflexivity. Qed.

(** A sibling that is not proposed is read from the stored attributes. *)
Example stored_password_is_compared (host : Host) (view : jsval) :
  result_of (validateModel host shippedOptions
               (passwordEntity (VStr "b") (VStr "b"))
               (extend [VObj Plain [("confirm", VUndef)];
                        VObj Plain [("password", VStr "b"); ("confirm", VStr "b")];
                        VObj Plain [("confirm", VStr "a")]]))
  = Normal (Resolved {| invalidAttrs := [("confirm", VUndef)]; isValid := false |}).
Proof. reflexivity. Qed.

(** * Further properties of the code *)

(** ** [flatten] *)

Lemma set_prop_prefixed (p k : string) (v : jsval) (ps : props) :
  set_prop (p ++ k) v (map (prefixed p) ps) = map (prefixed p) (set_prop k v ps).
Proof.
  induction ps as [|[k' v'] ps IH]; simpl; [reflexivity|].
  unfold prefixed at 1. cbn [fst snd]. rewrite append_eqb_l.
  destruct (String.eqb k' k); simpl; [reflexivity|].
  rewrite IH. reflexivity.
Qed.

Lemma flatten_under_prefix (obj : jsval) :
  forall into p q,
    flatten obj (map (prefixed p) into) (p ++ q) = map (prefixed p) (flatten obj into q).
Proof.
  induction obj using jsval_deep_ind; intros into p q; try reflexivity.
  - cbn [flatten]. generalize 0%nat. revert into.
    induction s as [|c s IH]; intros into i; [reflexivity|].
    rewrite append_assoc, set_prop_prefixed. apply IH.
  - cbn [flatten]. generalize 0%nat. revert into.
    induction H as [|x xs Hx Hxs IH]; intros into i; [reflexivity|].
    cbn beta iota. rewrite !append_assoc. destruct (is_nested x).
    + rewrite Hx. apply IH.
    + rewrite set_prop_prefixed. apply IH.
  - cbn [flatten]. destruct (numeric_length ps) as [length|].
    + generalize 0%nat. revert into.
      induction (Z.to_nat length) as [|count IHc]; intros into i; [reflexivity|].
      match goal with
      | |- _ _ _ ?a = map _ (_ _ _ ?b) => assert (Hown : a = map (prefixed p) b)
      end.
      { clear IHc. induction H as [|[key val] qs Hx Hqs IH]; [reflexivity|].
        destruct (String.eqb key (key_of_index i)); [|exact IH].
        simpl in Hx. rewrite !append_assoc. destruct (is_nested val).
        - apply Hx.
        - apply set_prop_prefixed. }
      rewrite Hown. apply IHc.
    + revert into.
      induction H as [|[key val] qs Hx Hqs IH]; intros into; [reflexivity|].
      simpl in Hx. cbn beta iota. rewrite !append_assoc. destruct (is_nested val).
      * rewrite Hx. apply IH.
      * rewrite set_prop_prefixed. apply IH.
Qed.

(** X1: the paths that [flatten] writes under a prefix are the paths it
    writes under the empty prefix, each with the prefix in front. *)
Theorem flatten_prefix_is_prepended (obj : jsval) (prefix : string) :
  flatten obj [] prefix = map (prefixed prefix) (flatten obj [] "").
Proof.
  rewrite <- (flatten_under_prefix obj [] prefix ""). cbn [map].
  rewrite append_nil_r. reflexivity.
Qed.

(** X2: no path occurs twice in a flattened attribute map. *)
Theorem flatten_paths_are_distinct (attrs : jsval) :
  NoDup (map fst (flatten attrs [] "")).
Proof. apply flatten_NoDup. constructor. Qed.

Lemma set_prop_leaves (k : string) (v : jsval) (ps : props) :
  is_nested v = false ->
  Forall (fun kv => is_nested (snd kv) = false) ps ->
  Forall (fun kv => is_nested (snd kv) = false) (set_prop k v ps).
Proof.
  intros Hv. induction ps as [|[k' v'] ps IH]; simpl; intros Hall.
  - constructor; [exact Hv | constructor].
  - inversion Hall as [|? ? Hhead Htail]; subst.
    destruct (String.eqb k' k); constructor; auto.
Qed.

Lemma flatten_leaves (obj : jsval) :
  forall into prefix,
    Forall (fun kv => is_nested (snd kv) = false) into ->
    Forall (fun kv => is_nested (snd kv) = false) (flatten obj into prefix).
Proof.
  apply (flatten_invariant (fun into => Forall (fun kv => is_nested (snd kv) = false) into)).
  intros k v into Hv. apply set_prop_leaves. exact Hv.
Qed.

Lemma dotted_path (a b : string) : dotted (a ++ "." ++ b) = true.
Proof.
  unfold dotted. induction a as [|c a IH]; [reflexivity|].
  change (list_ascii_of_string (String c a ++ "." ++ b))
    with (c :: list_ascii_of_string (a ++ "." ++ b)).
  cbn [existsb]. rewrite IH. apply orb_true_r.
Qed.

(** A sibling that is gone into writes below its own name only. *)
Lemma flatten_keeps_other_names (obj : jsval) (key name : string) (v : jsval) :
  dotted key = false ->
  forall into,
    lookup key into = Some v ->
    lookup key (flatten obj into ("" ++ name ++ ".")) = Some v.
Proof.
  intros Hkey into Hinto.
  replace ("" ++ name ++ ".")%string with ((name ++ ".") ++ "")%string
    by (rewrite append_nil_r; reflexivity).
  apply (flatten_writes_under (fun into => lookup key into = Some v) (name ++ ".")).
  - intros rest x acc _ Hacc. rewrite lookup_set_prop_other; [exact Hacc|].
    intros Heq. rewrite <- Heq, append_assoc in Hkey.
    rewrite dotted_path in Hkey. discriminate.
  - exact Hinto.
Qed.

Lemma key_walk_keeps (c : obj_class) (ps : props) (key : string) (v : jsval) :
  numeric_length ps = None ->
  dotted key = false ->
  ~ In key (map fst ps) ->
  forall into,
    lookup key into = Some v ->
    lookup key (flatten (VObj c ps) into "") = Some v.
Proof.
  intros Hlen Hkey. cbn [flatten]. rewrite Hlen. clear Hlen.
  induction ps as [|[name val] ps IH]; intros Hnotin into Hinto; [exact Hinto|].
  cbn [map fst] in Hnotin. apply IH; [intros Hin; apply Hnotin; right; exact Hin|].
  destruct (is_nested val).
  - apply flatten_keeps_other_names; assumption.
  - cbn [String.append]. rewrite lookup_set_prop_other; [exact Hinto|].
    intros ->. apply Hnotin. left. reflexivity.
Qed.

Lemma numeric_length_tail (name : string) (val : jsval) (ps : props) :
  NoDup (map fst ((name, val) :: ps)) ->
  numeric_length ((name, val) :: ps) = None ->
  numeric_length ps = None.
Proof.
  unfold numeric_length. cbn [lookup map fst]. intros Hnd.
  destruct (String.eqb name "length") eqn:E; [|intros H; exact H].
  apply String.eqb_eq in E. subst name. inversion Hnd as [|? ? Hnotin _]; subst.
  intros _. destruct (lookup "length" ps) as [x|] eqn:Hl; [|reflexivity].
  exfalso. apply Hnotin. clear Hnotin Hnd.
  induction ps as [|[k w] ps IH]; [discriminate|].
  cbn [lookup] in Hl. cbn [map fst]. destruct (String.eqb k "length") eqn:Ek.
  - left. apply String.eqb_eq. exact Ek.
  - right. apply IH. exact Hl.
Qed.

Lemma key_walk_writes_leaf (c : obj_class) (ps : props) (key : string) (val : jsval) :
  numeric_length ps = None ->
  NoDup (map fst ps) ->
  In (key, val) ps ->
  dotted key = false ->
  is_nested val = false ->
  forall into, lookup key (flatten (VObj c ps) into "") = Some val.
Proof.
  intros Hlen Hnd Hin Hkey Hleaf.
  induction ps as [|[name x] ps IH]; intros into; [destruct Hin|].
  pose proof (numeric_length_tail name x ps Hnd Hlen) as Htail.
  inversion Hnd as [|? ? Hnotin Hrest]; subst.
  assert (Hstep : flatten (VObj c ((name, x) :: ps)) into ""
                  = flatten (VObj c ps)
                      (if is_nested x then flatten x into ("" ++ name ++ ".")
                       else set_prop ("" ++ name) x into) "").
  { cbn [flatten]. rewrite Hlen, Htail. reflexivity. }
  rewrite Hstep. destruct Hin as [[= -> ->]|Hin].
  - rewrite Hleaf. apply key_walk_keeps; try assumption.
    cbn [String.append]. apply lookup_set_prop_same.
  - apply IH; assumption.
Qed.



Lemma flatten_flat_from (c : obj_class) (ps : props) :
  numeric_length ps = None ->
  forall into,
    Forall (fun kv => is_nested (snd kv) = false) ps ->
    NoDup (map fst (into ++ ps)) ->
    flatten (VObj c ps) into "" = (into ++ ps)%list.
Proof.
  intros Hlen. cbn [flatten]. rewrite Hlen. clear Hlen.
  induction ps as [|[key val] ps IH]; intros into Hflat Hnd.
  - rewrite app_nil_r. reflexivity.
  - inversion Hflat as [|? ? Hval Hrest]; subst. cbn [snd] in Hval. rewrite Hval.
    cbn [String.append]. rewrite set_prop_absent.
    + rewrite IH; [rewrite <- app_assoc; reflexivity | exact Hrest |].
      rewrite <- app_assoc. exact Hnd.
    + rewrite map_app in Hnd. cbn [map fst] in Hnd.
      apply NoDup_remove_2 in Hnd. intros Hin. apply Hnd.
      apply in_or_app. left. exact Hin.
Qed.



(** An object that has a numeric [length] is walked by index: only its own
    properties named by an index below the length are flattened. *)
Example flatten_of_an_object_with_a_length :
  flatten (VObj Plain [("length", VNum 2); ("name", VStr "x")]) [] "" = []
  /\ flatten (VObj Plain [("length", VNum 2); ("name", VStr "x"); ("1", VStr "y");
                          ("5", VStr "z")]) [] ""
     = [("1", VStr "y")].
Proof. split; reflexivity. Qed.

Lemma flatten_keeps_paths (obj : jsval) :
  forall into prefix k,
    In k (map fst into) -> In k (map fst (flatten obj into prefix)).
Proof.
  intros into prefix k.
  apply (flatten_invariant (fun into => In k (map fst into))).
  intros k' v acc _ Hin. apply set_prop_keys. right. exact Hin.
Qed.

Lemma flatten_top_level_leaf (c : obj_class) (ps : props) (k : string) (v : jsval) :
  numeric_length ps = None ->
  forall into,
    In (k, v) ps -> is_nested v = false ->
    In k (map fst (flatten (VObj c ps) into "")).
Proof.
  intros Hlen into Hin Hleaf.
  assert (Hwalk : forall qs acc,
             In (k, v) qs ->
             In k (map fst
                     ((fix each (ps : props) (into : props) {struct ps} : props :=
                         match ps with
                         | [] => into
                         | (key, val) :: rest =>
                             each rest
                               (if is_nested val then flatten val into ("" ++ key ++ ".")
                                else set_prop ("" ++ key) val into)
                         end) qs acc))).
  { induction qs as [|[key val] qs IH]; intros acc Hq; [destruct Hq|].
    destruct Hq as [[= -> ->]|Hq]; [|apply IH; exact Hq].
    rewrite Hleaf. cbn [String.append].
    assert (Hkeep : forall rs acc',
               In k (map fst acc') ->
               In k (map fst
                       ((fix each (ps : props) (into : props) {struct ps} : props :=
                           match ps with
                           | [] => into
                           | (key, val) :: rest =>
                               each rest
                                 (if is_nested val then flatten val into ("" ++ key ++ ".")
                                  else set_prop ("" ++ key) val into)
                           end) rs acc'))).
    { induction rs as [|[key val] rs IHr]; intros acc' Hacc; [exact Hacc|].
      apply IHr. destruct (is_nested val); [apply flatten_keeps_paths; exact Hacc|].
      apply set_prop_keys. right. exact Hacc. }
    apply Hkeep. apply set_prop_keys. left. reflexivity. }
  cbn [flatten]. rewrite Hlen. apply Hwalk. exact Hin.
Qed.

(** ** Messages and labels *)

Lemma format_scan_without_arguments (host : Host) (text : string) :
  forall open,
    format_scan host [] text open
    = ((match open with None => "" | Some digits => "{" ++ digits end) ++ text)%string.
Proof.
  induction text as [|c rest IH]; intros open.
  - destruct open; cbn [format_scan]; [rewrite append_nil_r|]; reflexivity.
  - cbn [format_scan].
    assert (Hout : (if Ascii.eqb c "{"%char then format_scan host [] rest (Some "")
                    else String c (format_scan host [] rest None)) = String c rest).
    { destruct (Ascii.eqb c "{"%char) eqn:E; rewrite IH; [|reflexivity].
      apply Ascii.eqb_eq in E. subst c. reflexivity. }
    destruct open as [digits|]; [|exact Hout].
    destruct (is_digit c).
    + rewrite IH. change ("{" ++ (digits ++ String c ""))%string
        with (("{" ++ digits) ++ String c "")%string.
      rewrite append_assoc. reflexivity.
    + destruct (Ascii.eqb c "}"%char && negb (String.eqb digits "")) eqn:E.
      * apply andb_prop in E. destruct E as [E _]. apply Ascii.eqb_eq in E. subst c.
        rewrite IH. unfold format_arg. cbn [arr_get_from String.append].
        rewrite append_assoc. reflexivity.
      * rewrite Hout. cbn [String.append]. reflexivity.
Qed.

(** X5: [format] called without arguments returns the text as it is: a
    placeholder that has no argument is left in place. *)
Theorem format_without_arguments (host : Host) (text : string) :
  format host text [] = text.
Proof. unfold format. rewrite format_scan_without_arguments. reflexivity. Qed.

Lemma lower_is_not_upper (c : ascii) : is_lower c = true -> is_upper c = false.
Proof.
  destruct c as [[] [] [] [] [] [] [] []]; intros H; try reflexivity; discriminate H.
Qed.

Lemma lower_is_word (c : ascii) : is_lower c = true -> is_word c = true.
Proof.
  destruct c as [[] [] [] [] [] [] [] []]; intros H; try reflexivity; discriminate H.
Qed.

Lemma lower_is_not_underscore (c : ascii) : is_lower c = true -> Ascii.eqb c "_"%char = false.
Proof.
  destruct c as [[] [] [] [] [] [] [] []]; intros H; try reflexivity; discriminate H.
Qed.

Lemma upper_of_lower_is_not_underscore (c : ascii) :
  is_lower c = true -> Ascii.eqb (toUpperCase c) "_"%char = false.
Proof.
  destruct c as [[] [] [] [] [] [] [] []]; intros H; try reflexivity; discriminate H.
Qed.

Lemma sentence_scan_lower (s : string) :
  forallb is_lower (list_ascii_of_string s) = true ->
  sentence_scan false true s = s /\ replace_underscore s = s.
Proof.
  induction s as [|c s IH]; cbn [list_ascii_of_string forallb]; intros H; [split; reflexivity|].
  apply andb_prop in H. destruct H as [Hc Hs]. destruct (IH Hs) as [IH1 IH2].
  cbn [sentence_scan replace_underscore].
  rewrite (lower_is_not_upper c Hc), (lower_is_word c Hc), (lower_is_not_underscore c Hc).
  cbn [orb andb negb String.append]. rewrite IH1, IH2. split; reflexivity.
Qed.

(** X6: the label that [sentenceCase] gives to a name written in lower-case
    letters only is the name with its first letter in upper case. *)
Theorem sentenceCase_of_a_lower_case_name (c : ascii) (s : string) :
  is_lower c = true ->
  forallb is_lower (list_ascii_of_string s) = true ->
  sentenceCase (VStr (String c s)) = Normal (VStr (String (toUpperCase c) s)).
Proof.
  intros Hc Hs. destruct (sentence_scan_lower s Hs) as [H1 H2].
  unfold sentenceCase. cbn [sentence_scan].
  rewrite (lower_is_not_upper c Hc), (lower_is_word c Hc).
  cbn [orb andb negb String.append replace_underscore].
  rewrite H1, (upper_of_lower_is_not_underscore c Hc), H2. reflexivity.
Qed.

Lemma sentenceCase_of_a_lower_case_name_witness :
  sentenceCase (VStr "age") = Normal (VStr "Age").
Proof. apply (sentenceCase_of_a_lower_case_name "a"%char "ge"); reflexivity. Defined.

(** ** What the built in validators accept *)

Lemma settle_guard (host : Host) (defaultOptions : jsval) (guard : bool) (k : string)
  (attr model : jsval) (args : completion (list jsval)) :
  settle (if guard then reject_message host defaultOptions k attr model args
          else Normal Resolves) = Resolves
  <-> guard = false.
Proof.
  destruct guard.
  - split; [|discriminate].
    intros H. exfalso.
    exact (proj2 (reject_message_settles host defaultOptions k attr model args) H).
  - split; reflexivity.
Qed.

(** X7: with a parameter that is not a function, [required] passes iff the
    parameter is falsy or the value is not empty; it never leaves its result
    handle pending. *)
Theorem required_passes_iff
  (host : Host) (defaultOptions value attr required model computed : jsval) :
  isFunction required = false ->
  (validator_required host defaultOptions value attr required model computed = Resolves
   <-> truthy required = false \/ hasValue value = true)
  /\ validator_required host defaultOptions value attr required model computed <> Stalls.
Proof.
  intros Hfun.
  assert (Hbody : validator_required host defaultOptions value attr required model computed
                  = settle (if truthy required && negb (hasValue value)
                            then reject_message host defaultOptions "required" attr model
                                   (Normal [])
                            else Normal Resolves)).
  { unfold validator_required.
    replace (match required with
             | VFun f => call_function host f model [value; attr; computed]
             | _ => Normal required
             end) with (Normal required) by (destruct required; try reflexivity; discriminate).
    cbn [cbind]. destruct (truthy required), (hasValue value); reflexivity. }
  rewrite Hbody. split.
  - rewrite settle_guard.
    destruct (truthy required), (hasValue value); cbn; intuition discriminate.
  - destruct (_ && _); [apply reject_message_settles | discriminate].
Qed.

Lemma required_passes_iff_witness :
  validator_required bareHost shippedOptions (VStr "   ") (VStr "name") (VBool false)
    (entity [] []) VUndef = Resolves.
Proof.
  apply (proj1 (required_passes_iff bareHost shippedOptions (VStr "   ") (VStr "name")
                  (VBool false) (entity [] []) VUndef eq_refl)).
  left. reflexivity.
Defined.

(** X8: on integers the bounds of [min] and [max] are inclusive: [min]
    passes iff the value is at least the bound, [max] iff it is at most the
    bound.  [NaN] is a number that is below and above nothing: the value
    [NaN] passes both whatever the integer bound, and every integer passes a
    bound that is [NaN]. *)
Theorem min_and_max_are_inclusive
  (host : Host) (defaultOptions attr model : jsval) (value bound : Z) :
  (validator_min host defaultOptions (VNum value) attr (VNum bound) model = Resolves
   <-> bound <= value)
  /\ (validator_max host defaultOptions (VNum value) attr (VNum bound) model = Resolves
      <-> value <= bound)
  /\ validator_min host defaultOptions VNaN attr (VNum bound) model = Resolves
  /\ validator_max host defaultOptions VNaN attr (VNum bound) model = Resolves
  /\ validator_min host defaultOptions (VNum value) attr VNaN model = Resolves
  /\ validator_max host defaultOptions (VNum value) attr VNaN model = Resolves.
Proof.
  unfold validator_min, validator_max, js_gt. cbn [isNumber isNumberValue orb negb js_lt].
  rewrite !settle_guard. repeat split; try reflexivity.
  - destruct (Z.ltb_spec value bound); intros; try reflexivity; try discriminate; lia.
  - destruct (Z.ltb_spec value bound); intros; try reflexivity; try discriminate; lia.
  - destruct (Z.ltb_spec bound value); intros; try reflexivity; try discriminate; lia.
  - destruct (Z.ltb_spec bound value); intros; try reflexivity; try discriminate; lia.
Qed.

Lemma pair_of_bounds (low high : jsval) :
  js_get (VArr [low; high]) "0" = Normal low /\ js_get (VArr [low; high]) "1" = Normal high.
Proof. split; reflexivity. Qed.

(** X9: on integers [range] passes iff the value lies between the two
    bounds, both included; the value [NaN] passes whatever the two integer
    bounds. *)
Theorem range_is_inclusive
  (host : Host) (defaultOptions attr model : jsval) (value low high : Z) :
  (validator_range host defaultOptions (VNum value) attr (VArr [VNum low; VNum high]) model
   = Resolves
   <-> low <= value <= high)
  /\ validator_range host defaultOptions VNaN attr (VArr [VNum low; VNum high]) model
     = Resolves.
Proof.
  assert (Hbody : validator_range host defaultOptions (VNum value) attr
                    (VArr [VNum low; VNum high]) model
                  = settle (if (value <? low) || (high <? value)
                            then reject_message host defaultOptions "range" attr model
                                   (both (VArr [VNum low; VNum high]))
                            else Normal Resolves)).
  { unfold validator_range, js_gt.
    destruct (pair_of_bounds (VNum low) (VNum high)) as [-> ->].
    cbn [isNumber isNumberValue orb negb js_lt cbind].
    destruct (value <? low); [reflexivity|]. cbn [cbind orb].
    destruct (high <? value); reflexivity. }
  split.
  - rewrite Hbody, settle_guard.
    destruct (Z.ltb_spec value low), (Z.ltb_spec high value); cbn [orb];
      split; intros; try reflexivity; try discriminate; lia.
  - unfold validator_range, js_gt.
    destruct (pair_of_bounds (VNum low) (VNum high)) as [-> ->]. reflexivity.
Qed.

(** X10: a value that is neither a number nor a string fails [min], [max]
    and [range], whatever the bounds. *)
Theorem numeric_validators_reject_other_values
  (host : Host) (defaultOptions value attr param model : jsval) :
  isNumberValue value = false ->
  isString value = false ->
  validator_min host defaultOptions value attr param model <> Resolves
  /\ validator_max host defaultOptions value attr param model <> Resolves
  /\ validator_range host defaultOptions value attr param model <> Resolves.
Proof.
  intros Hnum Hstr.
  assert (Hn : isNumber host value = false).
  { unfold isNumber. rewrite Hnum. destruct value; try reflexivity; discriminate. }
  unfold validator_min, validator_max, validator_range. rewrite Hn.
  cbn [negb orb cbind]. repeat split; apply reject_message_settles.
Qed.

Lemma numeric_validators_reject_other_values_witness :
  validator_min bareHost shippedOptions VUndef (VStr "age") (VNum 18) (entity [] [])
  <> Resolves.
Proof.
  exact (proj1 (numeric_validators_reject_other_values bareHost shippedOptions VUndef
                  (VStr "age") (VNum 18) (entity [] []) eq_refl eq_refl)).
Defined.

Lemma hasValue_string (s : string) :
  hasValue (VStr s) = negb (String.eqb (trim_string s) "").
Proof. reflexivity. Qed.

Lemma blank_or_not (s : string) :
  String.eqb (trim_string s) "" = false <-> trim_string s <> "".
Proof. apply String.eqb_neq. Qed.

(** X11: on a string the length validators measure the trimmed value, with
    inclusive bounds, and a blank string fails them all: [length] passes iff
    the trimmed value is not empty and has exactly the given length,
    [minLength] iff it has at least, [maxLength] iff it has at most that
    length, [rangeLength] iff its length lies between the two bounds. *)
Theorem length_validators_measure_the_trimmed_value
  (host : Host) (defaultOptions attr model : jsval) (s : string) (n low high : Z) :
  let len := str_length (trim_string s) in
  (validator_length host defaultOptions (VStr s) attr (VNum n) model = Resolves
   <-> trim_string s <> "" /\ len = n)
  /\ (validator_minLength host defaultOptions (VStr s) attr (VNum n) model = Resolves
      <-> trim_string s <> "" /\ n <= len)
  /\ (validator_maxLength host defaultOptions (VStr s) attr (VNum n) model = Resolves
      <-> trim_string s <> "" /\ len <= n)
  /\ (validator_rangeLength host defaultOptions (VStr s) attr (VArr [VNum low; VNum high])
        model = Resolves
      <-> trim_string s <> "" /\ low <= len <= high).
Proof.
  intros len.
  assert (Hlen : trimmed_length host (VStr s) = Normal (VNum len)) by reflexivity.
  assert (H1 : validator_length host defaultOptions (VStr s) attr (VNum n) model
               = settle (if String.eqb (trim_string s) "" || negb (len =? n)
                         then reject_message host defaultOptions "length" attr model
                                (Normal [VNum n])
                         else Normal Resolves)).
  { unfold validator_length. rewrite hasValue_string, Hlen.
    destruct (String.eqb (trim_string s) ""); reflexivity. }
  assert (H2 : validator_minLength host defaultOptions (VStr s) attr (VNum n) model
               = settle (if String.eqb (trim_string s) "" || (len <? n)
                         then reject_message host defaultOptions "minLength" attr model
                                (Normal [VNum n])
                         else Normal Resolves)).
  { unfold validator_minLength. rewrite hasValue_string, Hlen.
    destruct (String.eqb (trim_string s) ""); reflexivity. }
  assert (H3 : validator_maxLength host defaultOptions (VStr s) attr (VNum n) model
               = settle (if String.eqb (trim_string s) "" || (n <? len)
                         then reject_message host defaultOptions "maxLength" attr model
                                (Normal [VNum n])
                         else Normal Resolves)).
  { unfold validator_maxLength. rewrite hasValue_string, Hlen.
    destruct (String.eqb (trim_string s) ""); reflexivity. }
  assert (H4 : validator_rangeLength host defaultOptions (VStr s) attr
                 (VArr [VNum low; VNum high]) model
               = settle (if String.eqb (trim_string s) "" || (len <? low) || (high <? len)
                         then reject_message host defaultOptions "rangeLength" attr model
                                (both (VArr [VNum low; VNum high]))
                         else Normal Resolves)).
  { unfold validator_rangeLength, js_gt. rewrite hasValue_string, Hlen.
    destruct (pair_of_bounds (VNum low) (VNum high)) as [-> ->].
    destruct (String.eqb (trim_string s) ""); [reflexivity|].
    cbn [negb cbind orb js_lt].
    destruct (len <? low); [reflexivity|]. cbn [cbind orb js_lt].
    destruct (high <? len); reflexivity. }
  rewrite H1, H2, H3, H4, !settle_guard, <- blank_or_not.
  destruct (String.eqb (trim_string s) ""); cbn [orb].
  - repeat split; intros;
      repeat match goal with H : _ /\ _ |- _ => destruct H end; discriminate.
  - destruct (Z.eqb_spec len n), (Z.ltb_spec len n), (Z.ltb_spec n len),
      (Z.ltb_spec len low), (Z.ltb_spec high len); cbn [negb orb];
      repeat split; intros;
      repeat match goal with H : _ /\ _ |- _ => destruct H end;
      try reflexivity; try discriminate; lia.
Qed.

(** X12: an empty value ([null], [undefined] or a blank string) fails
    [length], [minLength], [maxLength], [rangeLength] and [pattern], whatever
    their parameter. *)
Theorem empty_value_fails_length_and_pattern
  (host : Host) (defaultOptions value attr param model : jsval) :
  hasValue value = false ->
  validator_length host defaultOptions value attr param model <> Resolves
  /\ validator_minLength host defaultOptions value attr param model <> Resolves
  /\ validator_maxLength host defaultOptions value attr param model <> Resolves
  /\ validator_rangeLength host defaultOptions value attr param model <> Resolves
  /\ validator_pattern host defaultOptions value attr param model <> Resolves.
Proof.
  intros Hempty.
  unfold validator_length, validator_minLength, validator_maxLength,
    validator_rangeLength, validator_pattern.
  rewrite Hempty. cbn [negb orb cbind]. repeat split; apply reject_message_settles.
Qed.

Lemma empty_value_fails_length_and_pattern_witness :
  validator_minLength bareHost shippedOptions (VStr "  ") (VStr "name") (VNum 0)
    (entity [] []) <> Resolves.
Proof.
  exact (proj1 (proj2 (empty_value_fails_length_and_pattern bareHost shippedOptions
                         (VStr "  ") (VStr "name") (VNum 0) (entity [] []) eq_refl))).
Defined.


Lemma arr_props_values (xs : list jsval) :
  forall i, map snd (arr_props_from i xs) = xs.
Proof. induction xs as [|x xs IH]; intros i; simpl; [|rewrite IH]; reflexivity. Qed.

(** X14: with an array parameter [oneOf] passes iff some element of the
    array is strictly equal to the value. *)
Theorem oneOf_passes_iff
  (host : Host) (defaultOptions value attr model : jsval) (values : list jsval) :
  validator_oneOf host defaultOptions value attr (VArr values) model = Resolves
  <-> exists x, In x values /\ strict_eq x value = true.
Proof.
  unfold validator_oneOf. rewrite settle_guard, negb_false_iff.
  unfold include. cbn [each_values own_props]. rewrite arr_props_values.
  apply existsb_exists.
Qed.

Lemma getValidators_undeclared (host : Host) (model rules : jsval) (name : string) :
  js_get model "validation" = Normal rules ->
  truthy rules = false
  \/ (exists ps, rules = VObj Plain ps /\ lookup name ps = None /\ inherited name = None) ->
  getValidators host model (VStr name) = Normal [].
Proof.
  intros Hrules Hno. unfold getValidators. rewrite Hrules. cbn [cbind].
  destruct Hno as [Hfalsy|(ps & -> & Hnone & Hproto)].
  - rewrite Hfalsy. reflexivity.
  - cbn [truthy to_string js_get cbind]. unfold or_inherited.
    rewrite Hnone, Hproto. reflexivity.
Qed.

(** X16: on a model without rules, or for an attribute that has no rule
    declared in the plain object of the rules and whose name is not one that
    this object inherits from [Object.prototype], [preValidate] resolves at
    once, whatever the value, without calling any validator. *)
Theorem preValidate_of_an_undeclared_attribute
  (host : Host) (defaultOptions this attributes rules value : jsval) (name : string) :
  js_get this "attributes" = Normal attributes ->
  js_get this "validation" = Normal rules ->
  truthy rules = false
  \/ (exists ps, rules = VObj Plain ps /\ lookup name ps = None /\ inherited name = None) ->
  mixin_preValidate host defaultOptions this (VStr name) value
  = ([], Normal (Deferred (Resolved tt))).
Proof.
  intros Hattrs Hrules Hno. unfold mixin_preValidate. rewrite Hattrs.
  unfold lift. rewrite bind_normal. cbn [trace result_of fst snd app].
  unfold validateAttr. rewrite (getValidators_undeclared host this rules name Hrules Hno).
  reflexivity.
Qed.

Lemma preValidate_of_an_undeclared_attribute_witness :
  mixin_preValidate bareHost shippedOptions ageEntity (VStr "name") (VStr "")
  = ([], Normal (Deferred (Resolved tt))).
Proof.
  apply (preValidate_of_an_undeclared_attribute bareHost shippedOptions ageEntity
           (VObj Plain [("age", VNum 15)])
           (VObj Plain [("age", VObj Plain [("required", VBool true); ("min", VNum 18)])])
           (VStr "") "name").
  - reflexivity.
  - reflexivity.
  - right. eexists. repeat split; reflexivity.
Defined.

(** A name that the rules inherit from [Object.prototype] finds a function
    of the engine: it is run as a function rule, and the chain is in its
    hands. *)
Example preValidate_of_an_inherited_name (host : Host) (value : jsval) :
  getValidators host ageEntity (VStr "constructor")
  = Normal [ {| fn := Some Kfn; val := VFun "Object.prototype.constructor"; msg := VUndef |} ]
  /\ getValidators host
       (entity [("age", VObj Plain [("toString", VNum 1)])] []) (VStr "age")
     = Normal [ {| fn := Some (Knative "Object.prototype.toString"); val := VNum 1;
                   msg := VUndef |} ].
Proof. split; reflexivity. Qed.

(** A string in a list of rules is taken apart by [_.keys]: each character
    is the parameter of a descriptor named by its index, for which there is no
    validator. *)
Example rule_list_with_a_string (host : Host) :
  getValidators host (entity [("age", VArr [VStr "ab"])] []) (VStr "age")
  = Normal [ {| fn := None; val := VStr "a"; msg := VUndef |};
             {| fn := None; val := VStr "b"; msg := VUndef |} ].
Proof. reflexivity. Qed.

(** X17: a rule declared as a function is run as the single descriptor of
    the attribute, on the model, the value, the attribute name and the
    computed context; the chain follows what the function does with its result
    handle, and when it fails the master is rejected with [undefined], since
    such a rule has no [msg]. *)
Theorem function_rule_decides_the_chain
  (host : Host) (defaultOptions model value computed : jsval)
  (c : obj_class) (ps : props) (name f : string) :
  js_get model "validation" = Normal (VObj c ps) ->
  lookup name ps = Some (VFun f) ->
  getValidators host model (VStr name)
  = Normal [ {| fn := Some Kfn; val := VFun f; msg := VUndef |} ]
  /\ result_of (validateAttr host defaultOptions model (VStr name) value computed
                  (Deferred Pending))
     = Normal (Deferred
                 match call_validator host f [model; value; VStr name; computed] with
                 | Resolves => Resolved tt
                 | Stalls => Pending
                 | _ => Rejected VUndef
                 end).
Proof.
  intros Hrules Hdecl.
  assert (Hget : getValidators host model (VStr name)
                 = Normal [ {| fn := Some Kfn; val := VFun f; msg := VUndef |} ]).
  { unfold getValidators. rewrite Hrules. cbn [cbind truthy to_string js_get].
    rewrite Hdecl. reflexivity. }
  split; [exact Hget|].
  rewrite (validateAttr_outcome host defaultOptions model (VStr name) value computed _ Hget).
  assert (Hcall : call host defaultOptions
                    {| fn := Some Kfn; val := VFun f; msg := VUndef |}
                    value (VStr name) model computed
                  = call_validator host f [model; value; VStr name; computed])
    by reflexivity.
  cbn [find]. rewrite Hcall.
  destruct (call_validator host f _) eqn:E; cbn [resolves negb]; rewrite ?Hcall, ?E;
    reflexivity.
Qed.

Lemma function_rule_decides_the_chain_witness :
  result_of (validateAttr stallingHost shippedOptions stalledEntity (VStr "first") (VNum 1)
               VUndef (Deferred Pending))
  = Normal (Deferred Pending).
Proof.
  exact (proj2 (function_rule_decides_the_chain stallingHost shippedOptions stalledEntity
                  (VNum 1) VUndef Plain _ "first" "never" eq_refl eq_refl)).
Defined.

(** ** A run over the attributes *)

Section EntityRun.

Variable host : Host.
Variables defaultOptions model computed : jsval.

Let chain (p : string * jsval) : completion handle :=
  result_of (validateAttr host defaultOptions model (VStr (fst p)) (snd p) computed
               (Deferred Pending)).

Lemma invokeModel_cases (pairs : list (string * jsval)) (pair : string * jsval)
  (acc : props) (valid : bool) :
  result_of (invokeModel host defaultOptions model computed pairs pair acc valid)
  = match chain pair with
    | Normal (Deferred (Resolved _)) =>
        match pairs with
        | next :: rest =>
            result_of (invokeModel host defaultOptions model computed rest next acc valid)
        | [] => Normal (Resolved {| invalidAttrs := acc; isValid := valid |})
        end
    | Normal (Deferred (Rejected e)) =>
        match pairs with
        | next :: rest =>
            result_of (invokeModel host defaultOptions model computed rest next
                         (set_prop (fst pair) e acc) false)
        | [] => Normal (Resolved {| invalidAttrs := set_prop (fst pair) e acc;
                                    isValid := false |})
        end
    | Normal _ => Normal Pending
    | Throw => Throw
    end.
Proof.
  rewrite invokeModel_step, bind_emit. cbn [result_of snd]. unfold chain.
  destruct (validateAttr host defaultOptions model (VStr (fst pair)) (snd pair) computed
              (Deferred Pending)) as [l [h|]].
  - rewrite bind_normal. cbn [result_of snd].
    destruct h as [[| |e]|v]; destruct pairs; reflexivity.
  - reflexivity.
Qed.

Lemma invokeModel_visits (pairs : list (string * jsval)) (pair : string * jsval)
  (acc : props) (valid : bool) :
  visited (trace (invokeModel host defaultOptions model computed pairs pair acc valid))
  = pair
    :: match chain pair with
       | Normal (Deferred (Resolved _)) =>
           match pairs with
           | next :: rest =>
               visited (trace (invokeModel host defaultOptions model computed rest next
                                 acc valid))
           | [] => []
           end
       | Normal (Deferred (Rejected e)) =>
           match pairs with
           | next :: rest =>
               visited (trace (invokeModel host defaultOptions model computed rest next
                                 (set_prop (fst pair) e acc) false))
           | [] => []
           end
       | _ => []
       end.
Proof.
  rewrite invokeModel_step, bind_emit. cbn [trace fst visited flat_map app].
  rewrite trace_bind_any.
  change (flat_map (fun e => match e with Visit a v => [(a, v)] | _ => [] end))
    with visited.
  unfold visited at 1. rewrite flat_map_app. fold visited.
  rewrite validateAttr_visits_nothing. cbn [app]. unfold chain.
  destruct pair as [a v]. cbn [fst snd]. f_equal.
  destruct (result_of _) as [[[| |e]|w]|]; destruct pairs; reflexivity.
Qed.

(** A run that settled went through every chain. *)
Lemma resolved_run_settled_every_chain (pairs : list (string * jsval)) :
  forall pair acc valid r,
    result_of (invokeModel host defaultOptions model computed pairs pair acc valid)
    = Normal (Resolved r) ->
    forall p, In p (pair :: pairs) ->
              exists st, chain p = Normal (Deferred st) /\ st <> Pending.
Proof.
  induction pairs as [|next pairs IH]; intros pair acc valid r Hres p Hin;
    rewrite invokeModel_cases in Hres;
    destruct (chain pair) as [[[| |e]|w]|] eqn:Hc; try discriminate;
    destruct Hin as [<-|Hin]; try (destruct Hin; fail);
    try (eexists; split; [exact Hc | discriminate]).
  - eapply IH; eassumption.
  - eapply IH; eassumption.
Qed.

Lemma invokeModel_never_rejects (pairs : list (string * jsval)) :
  forall pair acc valid e,
    result_of (invokeModel host defaultOptions model computed pairs pair acc valid)
    <> Normal (Rejected e).
Proof.
  induction pairs as [|next pairs IH]; intros pair acc valid e;
    rewrite invokeModel_cases;
    destruct (chain pair) as [[[| |e']|w]|]; try discriminate; apply IH.
Qed.

(** A chain that stays pending ends the run there. *)
Lemma invokeModel_stalls (before : list (string * jsval)) :
  forall first queue p after acc valid,
    first :: queue = (before ++ p :: after)%list ->
    (forall q, In q before -> exists st, chain q = Normal (Deferred st) /\ st <> Pending) ->
    chain p = Normal (Deferred Pending) ->
    result_of (invokeModel host defaultOptions model computed queue first acc valid)
    = Normal Pending
    /\ visited (trace (invokeModel host defaultOptions model computed queue first acc valid))
       = (before ++ [p])%list.
Proof.
  induction before as [|b before IH]; intros first queue p after acc valid Heq Hbefore Hp.
  - simpl in Heq. injection Heq as -> ->.
    rewrite invokeModel_cases, invokeModel_visits, Hp. split; reflexivity.
  - simpl in Heq. injection Heq as -> ->.
    destruct (Hbefore b (or_introl eq_refl)) as (st & Hst & Hne).
    rewrite invokeModel_cases, invokeModel_visits, Hst.
    destruct (before ++ p :: after)%list as [|next rest] eqn:Hq;
      [destruct before; discriminate|].
    destruct st as [|[]|e]; try contradiction.
    + destruct (IH next rest p after acc valid (eq_sym Hq)
                  (fun q Hq' => Hbefore q (or_intror Hq')) Hp) as [Hr Hv].
      split; [exact Hr|]. rewrite Hv. reflexivity.
    + destruct (IH next rest p after (set_prop (fst b) e acc) false (eq_sym Hq)
                  (fun q Hq' => Hbefore q (or_intror Hq')) Hp) as [Hr Hv].
      split; [exact Hr|]. rewrite Hv. reflexivity.
Qed.

(** A run that settled holds the events of the chain of every attribute. *)
Lemma settled_run_ran_every_chain (pairs : list (string * jsval)) :
  forall pair acc valid r,
    result_of (invokeModel host defaultOptions model computed pairs pair acc valid)
    = Normal (Resolved r) ->
    forall p e,
      In p (pair :: pairs) ->
      In e (trace (validateAttr host defaultOptions model (VStr (fst p)) (snd p) computed
                     (Deferred Pending))) ->
      In e (trace (invokeModel host defaultOptions model computed pairs pair acc valid)).
Proof.
  induction pairs as [|next pairs IH]; intros pair acc valid r Hres p e Hin He;
    rewrite invokeModel_cases in Hres; unfold chain in Hres;
    rewrite invokeModel_step, bind_emit; cbn [trace fst];
    right; rewrite trace_bind_any; apply in_or_app;
    (destruct Hin as [<-|Hin]; [left; exact He|]); try (destruct Hin; fail);
    right; destruct (result_of _) as [[[| |x]|w]|]; try discriminate;
    eapply IH; eassumption.
Qed.

End EntityRun.

(** X18: whenever [validateModel] settles, it has started the chain of every
    flattened attribute, in order; its map holds exactly the attributes whose
    chain was rejected, each with the value of the rejection; and its flag is
    true iff the map is empty. *)
Theorem settled_run_accounts_for_every_attribute
  (host : Host) (defaultOptions model attrs : jsval) (r : verdict) :
  result_of (validateModel host defaultOptions model attrs) = Normal (Resolved r) ->
  visited (trace (validateModel host defaultOptions model attrs)) = flatten attrs [] ""
  /\ (forall k e,
         lookup k (invalidAttrs r) = Some e
         <-> exists v,
             In (k, v) (flatten attrs [] "")
             /\ result_of (validateAttr host defaultOptions model (VStr k) v (clone attrs)
                             (Deferred Pending)) = Normal (Deferred (Rejected e)))
  /\ (isValid r = true <-> invalidAttrs r = []).
Proof.
  pose proof (flatten_NoDup attrs [] "" (NoDup_nil _)) as Hnd.
  unfold validateModel, pairs_of.
  destruct (flatten attrs [] "") as [|first rest]; [discriminate|].
  intros Hres. rewrite contained_trace.
  apply contained_settled in Hres; [|discriminate].
  pose proof (resolved_run_settled_every_chain host defaultOptions model (clone attrs)
                rest first [] true r Hres) as Hall.
  destruct (invokeModel_verdict host defaultOptions model (clone attrs) rest first Hnd Hall)
    as (r' & Hr' & Hv & Hmap & Hflag).
  rewrite Hres in Hr'. injection Hr' as <-.
  split; [exact Hv|]. split; [exact Hmap | exact Hflag].
Qed.

Lemma settled_run_accounts_for_every_attribute_witness :
  visited (trace (validateModel bareHost shippedOptions ageEntity
                    (VObj Plain [("age", VNum 15)])))
  = [("age", VNum 15)].
Proof.
  exact (proj1 (settled_run_accounts_for_every_attribute bareHost shippedOptions ageEntity
                  (VObj Plain [("age", VNum 15)])
                  {| invalidAttrs := [("age", VUndef)]; isValid := false |} eq_refl)).
Defined.

(** X19: the promise of [validateModel] is never rejected: a run settles as
    resolved, stays pending, or raises. *)
Theorem validateModel_never_rejects
  (host : Host) (defaultOptions model attrs e : jsval) :
  result_of (validateModel host defaultOptions model attrs) <> Normal (Rejected e).
Proof.
  unfold validateModel. destruct (pairs_of _); [discriminate|].
  intros H. apply contained_settled in H; [|discriminate].
  revert H. apply invokeModel_never_rejects.
Qed.

Lemma validateModel_never_rejects_witness :
  result_of (validateModel bareHost shippedOptions ageEntity (VObj Plain [("age", VNum 15)]))
  <> Normal (Rejected VUndef).
Proof.
  apply (validateModel_never_rejects bareHost shippedOptions ageEntity
           (VObj Plain [("age", VNum 15)]) VUndef).
Defined.

(** X20: when the chain of an attribute stays pending and the chains of the
    attributes before it settled, the run stays pending and no attribute
    after that one is evaluated. *)
Theorem pending_chain_stops_the_run
  (host : Host) (defaultOptions model attrs : jsval)
  (before : list (string * jsval)) (p : string * jsval) (after : list (string * jsval)) :
  flatten attrs [] "" = (before ++ p :: after)%list ->
  (forall q, In q before ->
             exists st,
               result_of (validateAttr host defaultOptions model (VStr (fst q)) (snd q)
                            (clone attrs) (Deferred Pending)) = Normal (Deferred st)
               /\ st <> Pending) ->
  result_of (validateAttr host defaultOptions model (VStr (fst p)) (snd p) (clone attrs)
               (Deferred Pending)) = Normal (Deferred Pending) ->
  result_of (validateModel host defaultOptions model attrs) = Normal Pending
  /\ visited (trace (validateModel host defaultOptions model attrs)) = (before ++ [p])%list.
Proof.
  intros Hflat Hbefore Hp. unfold validateModel, pairs_of. rewrite Hflat.
  destruct (before ++ p :: after)%list as [|first queue] eqn:Hq;
    [destruct before; discriminate|].
  destruct (invokeModel_stalls host defaultOptions model (clone attrs) before first queue p
              after [] true (eq_sym Hq) Hbefore Hp) as [Hr Hv].
  rewrite (contained_normal _ _ Hr). split; assumption.
Qed.

Lemma pending_chain_stops_the_run_witness :
  result_of (validateModel stallingHost shippedOptions stalledEntity
               (VObj Plain [("first", VNum 1); ("second", VUndef)])) = Normal Pending.
Proof.
  refine (proj1 (pending_chain_stops_the_run stallingHost shippedOptions stalledEntity
                   (VObj Plain [("first", VNum 1); ("second", VUndef)])
                   [] ("first", VNum 1) [("second", VUndef)] eq_refl _ eq_refl)).
  intros q [].
Defined.

(** A rule list that holds [null] cannot be read.  Behind an attribute
    whose validator has settled, the fault is caught in that validator's call
    and the run stays pending; on the first attribute it reaches the caller. *)
Example fault_down_the_queue (host : Host) :
  result_of (validateModel host shippedOptions
               (entity [("name", VObj Plain [("required", VBool true)]);
                        ("nick", VArr [VNull])] [])
               (VObj Plain [("name", VStr "Ann"); ("nick", VStr "a")]))
  = Normal Pending
  /\ result_of (validateModel host shippedOptions (entity [("nick", VArr [VNull])] [])
                  (VObj Plain [("nick", VStr "a")]))
     = Throw.
Proof. split; reflexivity. Qed.

(** ** What [validate] does once the run has settled *)

Lemma callbacks_app (t1 t2 : list event) :
  callbacks (t1 ++ t2) = (callbacks t1 ++ callbacks t2)%list.
Proof. apply filter_app. Qed.

Lemma run_calls_no_callback (host : Host) (defaultOptions model attr value computed : jsval)
  (rest : list validator) :
  forall v md,
    callbacks (trace (invokeValidator host defaultOptions model attr value computed
                        rest v md)) = [].
Proof.
  induction rest as [|next rest IH]; intros v md; rewrite run_trace;
    destruct (call _ _ _ _ _ _ _); try reflexivity.
  cbn [callbacks filter]. apply IH.
Qed.

Lemma validateAttr_calls_no_callback
  (host : Host) (defaultOptions model attr value computed : jsval) (md : handle) :
  callbacks (trace (validateAttr host defaultOptions model attr value computed md)) = [].
Proof.
  rewrite validateAttr_trace.
  destruct (getValidators host model attr) as [[|first rest]|]; try reflexivity.
  apply run_calls_no_callback.
Qed.

Lemma invokeModel_calls_no_callback (host : Host) (defaultOptions model computed : jsval)
  (pairs : list (string * jsval)) :
  forall pair acc valid,
    callbacks (trace (invokeModel host defaultOptions model computed pairs pair acc valid))
    = [].
Proof.
  induction pairs as [|next pairs IH]; intros pair acc valid;
    rewrite invokeModel_step, bind_emit; cbn [trace fst callbacks filter];
    fold (callbacks (trace
                       (result <- validateAttr host defaultOptions model (VStr (fst pair))
                                    (snd pair) computed (Deferred Pending) ;;
                        match result with
                        | Deferred (Resolved _) =>
                            ret (Resolved {| invalidAttrs := acc; isValid := valid |})
                        | Deferred (Rejected errorMessage) =>
                            ret (Resolved
                                   {| invalidAttrs := set_prop (fst pair) errorMessage acc;
                                      isValid := false |})
                        | _ => ret Pending
                        end)));
    rewrite trace_bind_any, callbacks_app, validateAttr_calls_no_callback; cbn [app];
    destruct (result_of _) as [[[| |e]|w]|]; try reflexivity; apply IH.
Qed.

Lemma validateModel_calls_no_callback (host : Host) (defaultOptions model attrs : jsval) :
  callbacks (trace (validateModel host defaultOptions model attrs)) = [].
Proof.
  unfold validateModel. destruct (pairs_of _); [reflexivity|].
  rewrite contained_trace. apply invokeModel_calls_no_callback.
Qed.

Lemma each_emits {A : Type} (test : A -> bool) (e : A -> event) (l : list A) :
  each (fun a => if test a then emit (e a) else ret tt) l
  = (map e (filter test l), Normal tt).
Proof.
  induction l as [|x l IH]; [reflexivity|].
  cbn [each filter]. destruct (test x).
  - rewrite bind_emit, IH. reflexivity.
  - unfold ret at 1. rewrite bind_normal, IH. reflexivity.
Qed.

Lemma intersection_is_not_empty (a b : list string) :
  (0 <? Z.of_nat (List.length (intersection a b)))
  = existsb (fun x => existsb (String.eqb x) b) a.
Proof.
  unfold intersection.
  destruct (existsb (fun x => existsb (String.eqb x) b) a) eqn:E.
  - apply existsb_exists in E. destruct E as [x [Hin Hx]].
    assert (Hn : In x (nodup string_dec (filter (fun x => existsb (String.eqb x) b) a))).
    { apply nodup_In. apply filter_In. split; assumption. }
    destruct (nodup _ _); [destruct Hn | reflexivity].
  - assert (Hnil : filter (fun x => existsb (String.eqb x) b) a = []).
    { induction a as [|x a IH]; [reflexivity|].
      cbn [existsb] in E. apply orb_false_elim in E. destruct E as [Hx Ha].
      cbn [filter]. rewrite Hx. apply IH. exact Ha. }
    rewrite Hnil. reflexivity.
Qed.

Lemma run_eta_pair {A : Type} (m : Run A) : (trace m, result_of m) = m.
Proof. destruct m; reflexivity. Qed.

Section Settled.

Variable host : Host.
Variables defaultOptions view options this attrs setOptions validated attributes : jsval.
Hypothesis Hvalidated : getValidatedAttrs this = Normal validated.
Hypothesis Hattributes : js_get this "attributes" = Normal attributes.

Let merged : jsval := extend [validated; attributes; attrs].
Let changed : props := flatten (if truthy attrs then attrs else merged) [] "".
Let opt : jsval := extend [options; setOptions].

Let valid_calls (r : verdict) : list event :=
  map (fun a => CallValid view (VStr a) (field opt "selector"))
    (filter (fun a => negb (hasOwnProperty (invalidAttrs r) a)) (keys validated)).

Let invalid_calls (r : verdict) : list event :=
  map (fun a => CallInvalid view (VStr a) (field (VObj Plain (invalidAttrs r)) a)
                  (field opt "selector"))
    (filter (fun a => hasOwnProperty (invalidAttrs r) a
                      && (hasOwnProperty changed a || negb (truthy attrs)))
       (keys validated)).

Lemma validate_unfolded :
  mixin_validate host defaultOptions view options this attrs setOptions
  = (settled <- validateModel host defaultOptions this merged ;;
     match settled with
     | Resolved r =>
         let model := js_set this "_isValid" (VBool (isValid r)) in
         (valid_calls r, Normal tt) ;;
         (invalid_calls r, Normal tt) ;;
         emit (Trigger "validated"
                 [field model "_isValid"; model; VObj Plain (invalidAttrs r)]) ;;
         emit (Trigger ("validated:" ++ (if truthy (field model "_isValid")
                                         then "valid" else "invalid"))
                 [model; VObj Plain (invalidAttrs r)]) ;;
         if negb (truthy (field opt "forceUpdate"))
            && existsb (fun k => existsb (String.eqb k) (map fst changed))
                 (map fst (invalidAttrs r))
         then ret (model, Pending)
         else if truthy (field model "_isValid")
              then ret (model, Resolved tt)
              else ret (model, Rejected VUndef)
     | _ => ret (this, Pending)
     end).
Proof.
  unfold mixin_validate. rewrite Hvalidated, Hattributes. unfold lift.
  rewrite !bind_normal. cbn [trace result_of fst snd app].
  fold merged. rewrite run_eta_pair.
  apply bind_ext. intros [|r|e]; try reflexivity.
  cbv zeta. unfold valid_calls, invalid_calls. fold changed opt.
  rewrite <- (each_emits (fun a => negb (hasOwnProperty (invalidAttrs r) a))
                (fun a => CallValid view (VStr a) (field opt "selector"))).
  rewrite <- (each_emits (fun a => hasOwnProperty (invalidAttrs r) a
                                   && (hasOwnProperty changed a || negb (truthy attrs)))
                (fun a => CallInvalid view (VStr a)
                            (field (VObj Plain (invalidAttrs r)) a) (field opt "selector"))).
  rewrite intersection_is_not_empty. reflexivity.
Qed.

Lemma callbacks_of_valid_calls (r : verdict) : callbacks (valid_calls r) = valid_calls r.
Proof.
  unfold valid_calls. induction (filter _ (keys validated)) as [|a l IH]; [reflexivity|].
  cbn [map callbacks filter]. fold (callbacks (map
    (fun a => CallValid view (VStr a) (field opt "selector")) l)).
  rewrite IH. reflexivity.
Qed.

Lemma callbacks_of_invalid_calls (r : verdict) :
  callbacks (invalid_calls r) = invalid_calls r.
Proof.
  unfold invalid_calls. induction (filter _ (keys validated)) as [|a l IH]; [reflexivity|].
  cbn [map callbacks filter]. fold (callbacks (map
    (fun a => CallInvalid view (VStr a) (field (VObj Plain (invalidAttrs r)) a)
                (field opt "selector")) l)).
  rewrite IH. reflexivity.
Qed.

Lemma validate_settled (l0 : list event) (r : verdict) :
  validateModel host defaultOptions this merged = (l0, Normal (Resolved r)) ->
  let model := js_set this "_isValid" (VBool (isValid r)) in
  mixin_validate host defaultOptions view options this attrs setOptions
  = ((l0 ++ valid_calls r ++ invalid_calls r
         ++ [Trigger "validated"
               [field model "_isValid"; model; VObj Plain (invalidAttrs r)];
             Trigger ("validated:" ++ (if truthy (field model "_isValid")
                                       then "valid" else "invalid"))
               [model; VObj Plain (invalidAttrs r)]])%list,
     Normal (model,
             if negb (truthy (field opt "forceUpdate"))
                && existsb (fun k => existsb (String.eqb k) (map fst changed))
                     (map fst (invalidAttrs r))
             then Pending
             else if truthy (field model "_isValid") then Resolved tt
                  else Rejected VUndef)).
Proof.
  intros Hrun model. rewrite validate_unfolded, Hrun, bind_normal.
  cbv zeta. fold model. rewrite !bind_normal, !bind_emit.
  cbn [trace result_of fst snd].
  destruct (_ && _); [|destruct (truthy (field model "_isValid"))];
    cbn [ret trace result_of fst snd]; rewrite ?app_nil_r; reflexivity.
Qed.

Lemma validate_callbacks :
  callbacks (trace (mixin_validate host defaultOptions view options this attrs setOptions))
  = match result_of (validateModel host defaultOptions this merged) with
    | Normal (Resolved r) => (valid_calls r ++ invalid_calls r)%list
    | _ => []
    end.
Proof.
  destruct (validateModel host defaultOptions this merged) as [l0 c] eqn:Hrun.
  pose proof (validateModel_calls_no_callback host defaultOptions this merged) as Hl0.
  rewrite Hrun in Hl0. cbn [trace fst] in Hl0. cbn [result_of snd].
  destruct c as [[|r|e]|].
  - rewrite validate_unfolded, Hrun, bind_normal. cbn [trace fst ret].
    rewrite app_nil_r. exact Hl0.
  - rewrite (validate_settled l0 r Hrun). cbn [trace fst].
    rewrite !callbacks_app, Hl0, callbacks_of_valid_calls, callbacks_of_invalid_calls.
    cbn [app callbacks filter]. rewrite app_nil_r. reflexivity.
  - rewrite validate_unfolded, Hrun, bind_normal. cbn [trace fst ret].
    rewrite app_nil_r. exact Hl0.
  - rewrite validate_unfolded, Hrun, bind_throw. exact Hl0.
Qed.

Lemma in_callbacks (e : event) (t : list event) :
  match e with CallValid _ _ _ | CallInvalid _ _ _ _ => True | _ => False end ->
  (In e t <-> In e (callbacks t)).
Proof.
  intros He. unfold callbacks. rewrite filter_In.
  destruct e; try destruct He; tauto.
Qed.

Lemma in_invalid_calls (r : verdict) (a : string) (e s : jsval) :
  In (CallInvalid view (VStr a) e s) (valid_calls r ++ invalid_calls r)%list
  <-> In a (keys validated)
      /\ lookup a (invalidAttrs r) = Some e
      /\ (hasOwnProperty changed a = true \/ truthy attrs = false)
      /\ s = field opt "selector".
Proof.
  rewrite in_app_iff. unfold valid_calls, invalid_calls. rewrite !in_map_iff. split.
  - intros [[b [Hb _]]|[b [[= -> <- <-] Hb]]]; [discriminate|].
    apply filter_In in Hb. destruct Hb as [Hin Hcond].
    apply andb_prop in Hcond. destruct Hcond as [Hinv Hch].
    unfold hasOwnProperty in Hinv. unfold field. cbn [own_props].
    destruct (lookup a (invalidAttrs r)) as [x|]; [|discriminate].
    repeat split; try assumption; try reflexivity.
    apply orb_prop in Hch. destruct Hch as [H|H]; [left; exact H|].
    right. apply negb_true_iff. exact H.
  - intros (Hin & Hinv & Hch & ->). right. exists a. split.
    + unfold field. cbn [own_props]. rewrite Hinv. reflexivity.
    + apply filter_In. split; [exact Hin|].
      unfold hasOwnProperty at 1. rewrite Hinv. cbn [andb].
      destruct Hch as [Hch | Hch]; rewrite Hch; [reflexivity | apply orb_true_r].
Qed.

Lemma callbacks_for_app (a : string) (t1 t2 : list event) :
  callbacks_for a (t1 ++ t2) = (callbacks_for a t1 ++ callbacks_for a t2)%list.
Proof. apply filter_app. Qed.

Lemma callbacks_for_callbacks (a : string) (t : list event) :
  callbacks_for a (callbacks t) = callbacks_for a t.
Proof.
  induction t as [|e t IH]; [reflexivity|].
  destruct e; cbn [callbacks callbacks_for filter]; try exact IH;
    fold (callbacks t); fold (callbacks_for a (callbacks t)); fold (callbacks_for a t);
    rewrite IH; reflexivity.
Qed.

Lemma only_one (g : string -> bool) (a : string) (l : list string) :
  NoDup l -> In a l ->
  filter (String.eqb a) (filter g l) = if g a then [a] else [].
Proof.
  induction l as [|x l IH]; intros Hnd Hin; [destruct Hin|].
  inversion Hnd as [|? ? Hnotin Hrest]; subst.
  assert (Hnone : ~ In a l -> filter (String.eqb a) (filter g l) = []).
  { intros Ha. clear IH Hnd Hin Hnotin Hrest.
    induction l as [|y l IH]; [reflexivity|].
    cbn [filter]. assert (Hy : String.eqb a y = false).
    { apply String.eqb_neq. intros ->. apply Ha. left. reflexivity. }
    destruct (g y); cbn [filter]; rewrite ?Hy; apply IH; intros H; apply Ha; right; exact H. }
  destruct Hin as [->|Hin].
  - cbn [filter]. destruct (g a); cbn [filter]; rewrite ?String.eqb_refl, (Hnone Hnotin);
      reflexivity.
  - assert (Hx : String.eqb a x = false).
    { apply String.eqb_neq. intros ->. contradiction. }
    cbn [filter]. destruct (g x); cbn [filter]; rewrite ?Hx; apply IH; assumption.
Qed.

Lemma validated_names_are_distinct : NoDup (keys validated).
Proof.
  revert Hvalidated. unfold getValidatedAttrs.
  destruct (js_get this "validation") as [validation|]; [|discriminate].
  cbn [cbind]. intros [= <-]. cbn [keys own_props].
  generalize (keys (if truthy validation then validation else VObj Plain [])).
  intros l. assert (Hacc : NoDup (map fst (@nil (string * jsval)))) by constructor.
  revert Hacc. generalize (@nil (string * jsval)).
  induction l as [|k l IH]; intros acc Hacc; [exact Hacc|].
  cbn [fold_left]. apply IH. apply set_prop_NoDup. exact Hacc.
Qed.

Lemma callbacks_for_valid_calls (r : verdict) (a : string) :
  In a (keys validated) ->
  callbacks_for a (valid_calls r)
  = if hasOwnProperty (invalidAttrs r) a then []
    else [CallValid view (VStr a) (field opt "selector")].
Proof.
  intros Ha. unfold valid_calls.
  assert (Hmap : forall l,
             callbacks_for a (map (fun b => CallValid view (VStr b) (field opt "selector")) l)
             = map (fun b => CallValid view (VStr b) (field opt "selector"))
                 (filter (String.eqb a) l)).
  { induction l as [|x l IH]; [reflexivity|].
    cbn [map callbacks_for filter].
    fold (callbacks_for a (map (fun b => CallValid view (VStr b) (field opt "selector")) l)).
    rewrite IH. destruct (String.eqb a x); reflexivity. }
  rewrite Hmap, (only_one _ a _ validated_names_are_distinct Ha).
  destruct (hasOwnProperty (invalidAttrs r) a); reflexivity.
Qed.

Lemma callbacks_for_invalid_calls (r : verdict) (a : string) :
  In a (keys validated) ->
  callbacks_for a (invalid_calls r)
  = if hasOwnProperty (invalidAttrs r) a
       && (hasOwnProperty changed a || negb (truthy attrs))
    then [CallInvalid view (VStr a) (field (VObj Plain (invalidAttrs r)) a)
            (field opt "selector")]
    else [].
Proof.
  intros Ha. unfold invalid_calls.
  assert (Hmap : forall l,
             callbacks_for a
               (map (fun b => CallInvalid view (VStr b) (field (VObj Plain (invalidAttrs r)) b)
                                (field opt "selector")) l)
             = map (fun b => CallInvalid view (VStr b) (field (VObj Plain (invalidAttrs r)) b)
                               (field opt "selector"))
                 (filter (String.eqb a) l)).
  { induction l as [|x l IH]; [reflexivity|].
    cbn [map callbacks_for filter].
    fold (callbacks_for a
            (map (fun b => CallInvalid view (VStr b) (field (VObj Plain (invalidAttrs r)) b)
                             (field opt "selector")) l)).
    rewrite IH. destruct (String.eqb a x); reflexivity. }
  rewrite Hmap, (only_one _ a _ validated_names_are_distinct Ha).
  destruct (_ && _); reflexivity.
Qed.


(** X22: in a partial validation ([validate(attrs)] with proposed changes)
    the [invalid] callback is never called for an attribute that is not among
    the flattened proposed changes, even when the attribute is invalid. *)
Theorem unchanged_attribute_is_not_announced_invalid (a : string) (e s : jsval) :
  truthy attrs = true ->
  lookup a (flatten attrs [] "") = None ->
  ~ In (CallInvalid view (VStr a) e s)
      (trace (mixin_validate host defaultOptions view options this attrs setOptions)).
Proof.
  intros Hpartial Hnot Hin.
  apply (in_callbacks (CallInvalid view (VStr a) e s) _ I) in Hin.
  rewrite validate_callbacks in Hin.
  destruct (result_of _) as [[|r|e']|]; try (destruct Hin; fail).
  apply in_invalid_calls in Hin. destruct Hin as (_ & _ & [Hch|Hfull] & _).
  - unfold changed in Hch. rewrite Hpartial in Hch.
    unfold hasOwnProperty in Hch. rewrite Hnot in Hch. discriminate.
  - congruence.
Qed.

End Settled.

Lemma settled_flag (host : Host) (defaultOptions model attrs : jsval) (r : verdict) :
  result_of (validateModel host defaultOptions model attrs) = Normal (Resolved r) ->
  (isValid r = true <-> invalidAttrs r = []).
Proof.
  pose proof (flatten_NoDup attrs [] "" (NoDup_nil _)) as Hnd.
  unfold validateModel, pairs_of.
  destruct (flatten attrs [] "") as [|first rest]; [discriminate|].
  intros Hres. apply contained_settled in Hres; [|discriminate].
  pose proof (resolved_run_settled_every_chain host defaultOptions model (clone attrs)
                rest first [] true r Hres) as Hall.
  destruct (invokeModel_verdict host defaultOptions model (clone attrs) rest first Hnd Hall)
    as (r' & Hr' & _ & _ & Hflag).
  rewrite Hres in Hr'. injection Hr' as <-. exact Hflag.
Qed.

(** ** The computed context *)

(** What [equalTo] decides. *)
Lemma equalTo_decides (host : Host) (defaultOptions : jsval) (d : validator)
  (value attr model : jsval) (c : obj_class) (fields : props) :
  fn d = Some KequalTo ->
  (call host defaultOptions d value attr model (VObj c fields) = Resolves
   <-> strict_eq value (read (VObj c fields) (to_string host (val d))) = true).
Proof.
  intros Hd. unfold call. rewrite Hd. cbn [apply_kind].
  unfold validator_equalTo, read. cbn [js_get cbind].
  destruct (strict_eq value _); cbn [negb].
  - split; reflexivity.
  - unfold cbind. destruct (formatLabel host defaultOptions attr model);
      [destruct (formatLabel host defaultOptions (val d) model)|];
      cbn [settle]; split; discriminate.
Qed.

Lemma lookup_in_distinct (k : string) (v : jsval) (ps : props) :
  NoDup (map fst ps) -> In (k, v) ps -> forall v', In (k, v') ps -> v' = v.
Proof.
  induction ps as [|[k0 v0] ps IH]; intros Hnd Hin v' Hin'; [destruct Hin|].
  cbn [map fst] in Hnd. inversion Hnd as [|? ? Hnotin Hrest]; subst.
  destruct Hin as [Heq|Hin], Hin' as [Heq'|Hin'].
  - congruence.
  - injection Heq as -> _. exfalso. apply Hnotin. apply (in_map fst) in Hin'. exact Hin'.
  - injection Heq' as -> _. exfalso. apply Hnotin. apply (in_map fst) in Hin. exact Hin.
  - apply IH; assumption.
Qed.









(** [{ age: ..., name: { required: true } }] with [age: 15], validating a
    change of [age] only. *)
Lemma unchanged_attribute_is_not_announced_invalid_witness :
  ~ In (CallInvalid VNull (VStr "name") VUndef (VStr "name"))
      (trace (mixin_validate bareHost shippedOptions VNull shippedOptions
                (entity [("age", VObj Plain [("min", VNum 18)]);
                         ("name", VObj Plain [("required", VBool true)])]
                        [("age", VNum 15)])
                (VObj Plain [("age", VNum 20)]) VUndef)).
Proof.
  exact (unchanged_attribute_is_not_announced_invalid bareHost shippedOptions VNull
           shippedOptions
           (entity [("age", VObj Plain [("min", VNum 18)]);
                    ("name", VObj Plain [("required", VBool true)])]
                   [("age", VNum 15)])
           (VObj Plain [("age", VNum 20)]) VUndef
           (VObj Plain [("age", VUndef); ("name", VUndef)]) (VObj Plain [("age", VNum 15)])
           eq_refl eq_refl "name" VUndef (VStr "name") eq_refl eq_refl).
Defined.

(** ** Declared attributes *)

Lemma writes_keep_keys (ps : props) (k : string) :
  forall into, In k (map fst into) -> In k (map fst (fold_left write ps into)).
Proof.
  induction ps as [|[k' v'] ps IH]; intros into Hin; [exact Hin|].
  cbn [fold_left]. apply IH. unfold write. apply set_prop_keys. right. exact Hin.
Qed.

Lemma writes_add_keys (ps : props) (k : string) :
  forall into, In k (map fst ps) -> In k (map fst (fold_left write ps into)).
Proof.
  induction ps as [|[k' v'] ps IH]; intros into Hin; [destruct Hin|].
  cbn [fold_left]. destruct Hin as [Heq|Hin].
  - cbn [fst] in Heq. subst k'. apply writes_keep_keys.
    unfold write. apply set_prop_keys. left. reflexivity.
  - apply IH. exact Hin.
Qed.

Lemma lookup_some_in (k : string) (v : jsval) (ps : props) :
  lookup k ps = Some v -> In (k, v) ps.
Proof.
  induction ps as [|[k' v'] ps IH]; simpl; [discriminate|].
  destruct (String.eqb k' k) eqn:E.
  - apply String.eqb_eq in E. subst. intros [= ->]. left. reflexivity.
  - intros H. right. apply IH. exact H.
Qed.

Lemma in_keys_lookup (k : string) (ps : props) :
  In k (map fst ps) -> exists v, lookup k ps = Some v.
Proof.
  induction ps as [|[k' v'] ps IH]; simpl; [intros []|].
  destruct (String.eqb k' k) eqn:E; [eexists; reflexivity|].
  intros [Heq|Hin]; [|apply IH; exact Hin].
  subst. rewrite String.eqb_refl in E. discriminate.
Qed.



(** With an attribute [length] that is a number the merged set is walked by
    index: no declared attribute is flattened, and [validate] raises. *)
Example length_attribute_empties_the_run (host : Host) (view : jsval) :
  flatten (extend [VObj Plain [("name", VUndef)];
                   VObj Plain [("length", VNum 10); ("name", VStr "")]; VUndef]) [] "" = []
  /\ result_of (mixin_validate host shippedOptions view shippedOptions
                  (entity [("name", VObj Plain [("required", VBool true)])]
                          [("length", VNum 10); ("name", VStr "")])
                  VUndef VUndef) = Throw.
Proof. split; reflexivity. Qed.

(** ** Binding, unbinding and configuring *)

Lemma delete_prop_absent (k : string) (ps : props) :
  lookup k ps = None -> delete_prop k ps = ps.
Proof.
  induction ps as [|[k' v'] ps IH]; simpl; [reflexivity|].
  destruct (String.eqb k' k); [discriminate|].
  intros H. cbn [negb]. rewrite IH by exact H. reflexivity.
Qed.

Lemma delete_prop_app (k : string) (ps l : props) :
  lookup k ps = None -> delete_prop k (ps ++ l)%list = (ps ++ delete_prop k l)%list.
Proof.
  intros H. unfold delete_prop. rewrite filter_app.
  fold (delete_prop k ps). rewrite (delete_prop_absent k ps H). reflexivity.
Qed.

Lemma set_prop_same_value (k : string) (v : jsval) (ps : props) :
  lookup k ps = Some v -> set_prop k v ps = ps.
Proof.
  induction ps as [|[k' v'] ps IH]; simpl; [discriminate|].
  destruct (String.eqb k' k) eqn:E.
  - intros [= ->]. reflexivity.
  - intros H. rewrite IH by exact H. reflexivity.
Qed.

Lemma bindModel_appends (c : obj_class) (mps : props) :
  lookup "preValidate" mps = None ->
  lookup "isValid" mps = None ->
  lookup "validate" mps = None ->
  bindModel (VObj c mps)
  = VObj c (mps ++ [("preValidate", VFun "mixin.preValidate");
                    ("isValid", VFun "mixin.isValid");
                    ("validate", VFun "mixin.validate")]).
Proof.
  intros Hp Hi Hv. unfold bindModel, extend_onto, extend_props, mixin_object.
  cbn [own_props fold_left]. unfold write. cbn [fst snd].
  assert (Hnotin : forall k l, lookup k mps = None -> ~ In k (map fst l) ->
                               ~ In k (map fst (mps ++ l))).
  { intros k l Hk Hl Hin. rewrite map_app in Hin. apply in_app_or in Hin.
    destruct Hin as [Hin|Hin]; [|contradiction].
    destruct (in_keys_lookup k mps Hin) as [x Hx]. congruence. }
  rewrite (set_prop_absent "preValidate" _ mps)
    by (rewrite <- (app_nil_r mps); apply Hnotin; [exact Hp | intros []]).
  rewrite (set_prop_absent "isValid")
    by (apply Hnotin; [exact Hi | simpl; intuition discriminate]).
  rewrite <- app_assoc.
  rewrite (set_prop_absent "validate")
    by (apply Hnotin; [exact Hv | simpl; intuition discriminate]).
  rewrite <- app_assoc. reflexivity.
Qed.

Lemma js_get_own (c : obj_class) (ps : props) (k : string) (v : jsval) :
  lookup k ps = Some v -> js_get (VObj c ps) k = Normal v.
Proof. intros H. cbn [js_get]. rewrite H. reflexivity. Qed.

Lemma js_get_absent (c : obj_class) (ps : props) (k : string) :
  lookup k ps = None -> inherited k = None -> js_get (VObj c ps) k = Normal VUndef.
Proof. intros H Hproto. cbn [js_get]. unfold or_inherited. rewrite H, Hproto. reflexivity. Qed.

(** X26: binding a view whose model has no property named [validate],
    [preValidate] or [isValid] puts the three methods on the model, and
    unbinding the view afterwards gives the view back as it was. *)
Theorem unbind_undoes_bind
  (defaultOptions options : jsval) (vc mc : obj_class) (vps mps : props) :
  lookup "model" vps = Some (VObj mc mps) ->
  lookup "collection" vps = None ->
  lookup "preValidate" mps = None ->
  lookup "isValid" mps = None ->
  lookup "validate" mps = None ->
  exists b,
    Validation_bind defaultOptions (VObj vc vps) options = Normal b
    /\ field (bound_view b) "model"
       = VObj mc (mps ++ [("preValidate", VFun "mixin.preValidate");
                          ("isValid", VFun "mixin.isValid");
                          ("validate", VFun "mixin.validate")])
    /\ Validation_unbind (bound_view b) = Normal (VObj vc vps, []).
Proof.
  intros Hmodel Hcoll Hp Hi Hv.
  unfold Validation_bind.
  rewrite (js_get_own vc vps "model" _ Hmodel),
    (js_get_absent vc vps "collection" Hcoll eq_refl).
  cbn [cbind isUndefined andb truthy].
  rewrite (bindModel_appends mc mps Hp Hi Hv).
  eexists. split; [reflexivity|]. cbn [bound_view]. split.
  - unfold field. cbn [js_set own_props]. rewrite lookup_set_prop_same. reflexivity.
  - unfold Validation_unbind. cbn [js_set].
    rewrite (js_get_own vc _ "model" _ (lookup_set_prop_same _ _ _)).
    rewrite (js_get_absent vc _ "collection")
      by (try reflexivity; rewrite lookup_set_prop_other by discriminate; exact Hcoll).
    cbn [cbind truthy].
    unfold unbindModel. cbn [js_delete cbind].
    rewrite (delete_prop_app "validate" mps _ Hv).
    cbn [delete_prop filter fst String.eqb Ascii.eqb Bool.eqb negb andb].
    rewrite (delete_prop_app "preValidate" mps _ Hp).
    cbn [delete_prop filter fst String.eqb Ascii.eqb Bool.eqb negb andb].
    rewrite (delete_prop_app "isValid" mps _ Hi).
    cbn [delete_prop filter fst String.eqb Ascii.eqb Bool.eqb negb andb].
    rewrite app_nil_r, set_prop_twice, (set_prop_same_value _ _ _ Hmodel).
    reflexivity.
Qed.

Lemma unbind_undoes_bind_witness :
  exists b,
    Validation_bind shippedOptions (VObj Plain [("model", ageEntity)]) VUndef = Normal b
    /\ Validation_unbind (bound_view b) = Normal (VObj Plain [("model", ageEntity)], []).
Proof.
  destruct (unbind_undoes_bind shippedOptions VUndef Plain ModelObj
              [("model", ageEntity)]
              [("attributes", VObj Plain [("age", VNum 15)]);
               ("validation",
                VObj Plain [("age", VObj Plain [("required", VBool true); ("min", VNum 18)])])]
              eq_refl eq_refl eq_refl eq_refl eq_refl) as (b & Hb & _ & Hu).
  exists b. split; assumption.
Defined.

Lemma bound_options_are_merged (defaultOptions view options : jsval) (b : binding) :
  Validation_bind defaultOptions view options = Normal b ->
  bound_options b = extend [defaultOptions; defaultCallbacks; options].
Proof.
  unfold Validation_bind.
  destruct (js_get view "model") as [m|]; [|discriminate].
  destruct (js_get view "collection") as [c|]; [|discriminate].
  cbn [cbind].
  destruct (isUndefined m && isUndefined c); [discriminate|].
  destruct (truthy m); [intros [= <-]; reflexivity|].
  destruct (truthy c); [|intros [= <-]; reflexivity].
  destruct (collection_each _ c); [|discriminate].
  cbn [cbind]. intros [= <-]. reflexivity.
Qed.

(** X27: the options a bound model works with are the caller's options
    where the caller gives one, and otherwise the callbacks of
    [Validation.callbacks] for [valid] and [invalid], which take the place of
    the no-op callbacks of [defaultOptions]. *)
Theorem bound_options_precedence
  (defaultOptions view options : jsval) (b : binding) :
  Validation_bind defaultOptions view options = Normal b ->
  NoDup (keys options) ->
  (forall k x, In (k, x) (own_props options) -> field (bound_options b) k = x)
  /\ (lookup "valid" (own_props options) = None ->
      field (bound_options b) "valid" = VFun "callbacks.valid")
  /\ (lookup "invalid" (own_props options) = None ->
      field (bound_options b) "invalid" = VFun "callbacks.invalid").
Proof.
  intros Hbind Hnd. rewrite (bound_options_are_merged _ _ _ _ Hbind).
  split; [intros k x Hin; apply extend_last; assumption|].
  assert (Hcb : forall k x,
             lookup k (own_props options) = None ->
             In (k, x) (own_props defaultCallbacks) ->
             field (extend [defaultOptions; defaultCallbacks; options]) k = x).
  { intros k x Hnone Hin. unfold field, extend. cbn [fold_left own_props].
    unfold extend_props at 1. rewrite writes_keep.
    - unfold extend_props at 1. rewrite (writes_last _ k x); [reflexivity| |exact Hin].
      simpl. repeat constructor; simpl; intuition discriminate.
    - intros Hin'. destruct (in_keys_lookup _ _ Hin') as [y Hy]. congruence. }
  split; intros Hnone.
  - apply Hcb; [exact Hnone | left; reflexivity].
  - apply Hcb; [exact Hnone | right; left; reflexivity].
Qed.

Lemma bound_options_precedence_witness :
  exists b,
    Validation_bind shippedOptions (VObj Plain [("model", ageEntity)])
      (VObj Plain [("forceUpdate", VBool true)]) = Normal b
    /\ field (bound_options b) "forceUpdate" = VBool true
    /\ field (bound_options b) "valid" = VFun "callbacks.valid".
Proof.
  eexists. split; [reflexivity|].
  refine ((fun H => conj (proj1 H "forceUpdate" (VBool true) (or_introl eq_refl))
                      (proj1 (proj2 H) eq_refl))
            (bound_options_precedence shippedOptions (VObj Plain [("model", ageEntity)])
               (VObj Plain [("forceUpdate", VBool true)]) _ eq_refl _)).
  simpl. repeat constructor. simpl. intuition.
Defined.

(** X28: [Validation.configure] gives each option it is passed its new
    value and leaves every other default option as it was. *)
Theorem configure_overrides_the_given_options
  (c : obj_class) (defaults : props) (options : jsval) :
  NoDup (keys options) ->
  (forall k x, In (k, x) (own_props options) ->
               field (configure (VObj c defaults) options) k = x)
  /\ (forall k, lookup k (own_props options) = None ->
                field (configure (VObj c defaults) options) k
                = field (VObj c defaults) k).
Proof.
  intros Hnd. unfold configure, extend_onto, extend_props, field. cbn [own_props]. split.
  - intros k x Hin. rewrite (writes_last _ k x _ Hnd Hin). reflexivity.
  - intros k Hnone. rewrite writes_keep; [reflexivity|].
    intros Hin. destruct (in_keys_lookup _ _ Hin) as [y Hy]. congruence.
Qed.

Lemma configure_overrides_the_given_options_witness :
  field (configure shippedOptions (VObj Plain [("labelFormatter", VStr "label")]))
    "labelFormatter" = VStr "label".
Proof.
  refine (proj1 (configure_overrides_the_given_options Plain _
                   (VObj Plain [("labelFormatter", VStr "label")]) _)
            "labelFormatter" (VStr "label") (or_introl eq_refl)).
  simpl. repeat constructor. simpl. intuition.
Defined.
